(** * ASCII Studio: the frame pipeline coordinator of [src/App.tsx]

    A shallow embedding of the frame-indexed [App] component: the refs and
    React state it keeps, the three callbacks [calculateAndApplyScale],
    [updatePreview], [renderFrame], the asynchronous [convert] loop, the
    event handlers and the animation effect.  Asynchronous calls to the
    Tauri backend are split at their [await]: the part before it issues the
    call, the part after it is run by the event that delivers the
    response.  The file also holds an earlier variant of the component,
    which keeps the frames as an array of strings and drops calls instead
    of coalescing them; it is modelled apart, in [Legacy].  *)

From Stdlib Require Import ZArith QArith List String Bool Lia Lqa.
From Stdlib.Strings Require Import Byte.
Import ListNotations.

Set Implicit Arguments.

Local Open Scope Z_scope.

(** ** JavaScript numbers

    The integers the component handles (lengths, indices, counts) are exact
    in a double.  A quotient of two of them need not be an integer and a
    division by zero gives an infinity, so a number is a rational, an
    infinity or NaN.  Rounding of non-integer quotients is not modelled:
    where the quotient is an integer the arithmetic below is the double's,
    elsewhere it is the exact value the double approximates. *)

Module Num.

Inductive num : Type :=
| Fin (q : Q)
| PInf
| NInf
| NaN.

Definition of_Z (z : Z) : num := Fin (inject_Z z).

(** [a / b] on two integers: the exact quotient.  The double is this value
    rounded, and equal to it when the quotient is an integer. *)
Definition div_Z (a b : Z) : num :=
  if b =? 0 then
    if a =? 0 then NaN else if 0 <? a then PInf else NInf
  else Fin (Qred (inject_Z a / inject_Z b)).

(** [z * n] for an integer [z]: the exact product, which is the double's
    when [n] is an integer. *)
Definition mul_Z (z : Z) (n : num) : num :=
  match n with
  | Fin q => Fin (Qred (inject_Z z * q))
  | PInf => if z =? 0 then NaN else if 0 <? z then PInf else NInf
  | NInf => if z =? 0 then NaN else if 0 <? z then NInf else PInf
  | NaN => NaN
  end.

(** [a + b]: the exact sum, which is the double's on integers. *)
Definition add (a b : num) : num :=
  match a, b with
  | NaN, _ | _, NaN => NaN
  | PInf, NInf | NInf, PInf => NaN
  | PInf, _ | _, PInf => PInf
  | NInf, _ | _, NInf => NInf
  | Fin x, Fin y => Fin (Qred (x + y))
  end.

(** [Math.min]. *)
Definition min (a b : num) : num :=
  match a, b with
  | NaN, _ | _, NaN => NaN
  | NInf, _ | _, NInf => NInf
  | PInf, x | x, PInf => x
  | Fin x, Fin y => if Qle_bool x y then Fin x else Fin y
  end.

(** Strict equality [===] of two numbers. *)
Definition eqb (a b : num) : bool :=
  match a, b with
  | Fin x, Fin y => Qeq_bool x y
  | PInf, PInf | NInf, NInf => true
  | _, _ => false
  end.

(** The result of ECMAScript's ToIntegerOrInfinity. *)
Inductive intinf : Type :=
| Int (z : Z)
| IPInf
| INInf.

(** Truncation toward zero; NaN becomes 0. *)
Definition to_integer_or_infinity (n : num) : intinf :=
  match n with
  | Fin q => Int (Z.quot (Qnum q) (Zpos (Qden q)))
  | PInf => IPInf
  | NInf => INInf
  | NaN => Int 0
  end.

End Num.

Import Num.

(** ** Typed arrays *)

Definition Uint8Array : Type := list byte.

Definition length_of (b : Uint8Array) : Z := Z.of_nat (List.length b).

(** A relative index of [%TypedArray%.prototype.subarray]: negative values
    count from the end, and the result is clamped to [0, len]. *)
Definition relative_index (len : Z) (rel : intinf) : Z :=
  match rel with
  | INInf => 0
  | Int r => if r <? 0 then Z.max (len + r) 0 else Z.min r len
  | IPInf => len
  end.

(** [buffer.subarray(begin, end)]. *)
Definition subarray (buffer : Uint8Array) (begin_ end_ : num) : Uint8Array :=
  let len := length_of buffer in
  let beginIndex := relative_index len (to_integer_or_infinity begin_) in
  let endIndex := relative_index len (to_integer_or_infinity end_) in
  let newLength := Z.max (endIndex - beginIndex) 0 in
  firstn (Z.to_nat newLength) (skipn (Z.to_nat beginIndex) buffer).

(** ** The data the component keeps *)

(** The three [useState] parameters, and the snapshot in [paramsRef]. *)
Record Params : Type := {
  width : Z;
  brightness : Z;
  contrast : Q
}.

(** [frameMetadata.current]. *)
Record FrameMetadata : Type := {
  count : Z;
  size : num;
  rawW : Z;
  rawH : Z
}.

Definition set_count (v : Z) (m : FrameMetadata) : FrameMetadata :=
  Build_FrameMetadata v (size m) (rawW m) (rawH m).
Definition set_size (v : num) (m : FrameMetadata) : FrameMetadata :=
  Build_FrameMetadata (count m) v (rawW m) (rawH m).
Definition set_rawW (v : Z) (m : FrameMetadata) : FrameMetadata :=
  Build_FrameMetadata (count m) (size m) v (rawH m).
Definition set_rawH (v : Z) (m : FrameMetadata) : FrameMetadata :=
  Build_FrameMetadata (count m) (size m) (rawW m) v.

(** The values [style.transform] of the [<pre>] takes: never assigned,
    ["none"], or ["translate(-50%, -50%) scale(s)"]. *)
Inductive Transform : Type :=
| TransformUnset
| TransformNone
| TransformCenterScale (scale : Q).

(** The [<pre>] element behind [asciiRef]. *)
Record Pre : Type := {
  textContent : string;
  transform : Transform
}.

Definition set_textContent (v : string) (e : Pre) : Pre :=
  Build_Pre v (transform e).
Definition set_transform (v : Transform) (e : Pre) : Pre :=
  Build_Pre (textContent e) v.

(** The viewport [<div>] behind [viewportRef]. *)
Record Div : Type := {
  clientWidth : Z;
  clientHeight : Z
}.

(** Arguments of the two backend commands. *)
Record ConvertArgs : Type := {
  arg_width : Z;
  arg_brightness : Z;
  arg_contrast : Q;
  arg_onlyFrame : option Z
}.

Record PreviewArgs : Type := {
  arg_preview_brightness : Z;
  arg_preview_contrast : Q;
  arg_frameIndex : Z
}.

(** One [invoke] of a backend command. *)
Inductive Invoke : Type :=
| load_gif
| convert_gif_to_ascii (a : ConvertArgs)
| apply_adjustments_to_preview (a : PreviewArgs).

(** An armed [setTimeout]: its handle, its delay, and the [gifLoaded] its
    callback's [convert] closed over. *)
Record Timeout : Type := {
  handle : Z;
  delay : Z;
  closure_gifLoaded : bool
}.

(** What a promise settles with. *)
Inductive Settled (A : Type) : Type :=
| Resolved (a : A)
| Rejected (e : string).
Arguments Resolved {A} a.
Arguments Rejected {A} e.

(** The component: its React state, its DOM refs, its mutable refs, and
    the part of the environment its asynchronous code waits on.
    [convertAwait] and [previewAwait] hold the [invoke]s not yet settled,
    each standing for a suspended [convert] or [updatePreview];
    [invoked] is the history of backend calls and [console] that of
    [console.error]. *)
Record App : Type := {
  gifLoaded : bool;
  adjustedPreviewUrl : string;
  params : Params;
  loading : bool;
  error : string;
  viewportRef : option Div;
  asciiRef : option Pre;
  isUpdating : bool;
  pendingUpdate : bool;
  paramsRef : Params;
  asciiBuffer : option Uint8Array;
  frameMetadata : FrameMetadata;
  animationFrameId : option Z;
  lastFrameTime : Q;
  currentFrameIdx : Z;
  isInteractive : bool;
  debounceTimer : option Z;
  timeouts : list Timeout;
  nextHandle : Z;
  convertAwait : list ConvertArgs;
  previewAwait : list PreviewArgs;
  invoked : list Invoke;
  console : list string
}.

(** Assignments to one ref or one piece of state. *)
Definition set_gifLoaded (v : bool) (st : App) : App :=
  Build_App
    v (adjustedPreviewUrl st) (params st) (loading st) (error st)
    (viewportRef st) (asciiRef st) (isUpdating st) (pendingUpdate st)
    (paramsRef st) (asciiBuffer st) (frameMetadata st) (animationFrameId st)
    (lastFrameTime st) (currentFrameIdx st) (isInteractive st)
    (debounceTimer st) (timeouts st) (nextHandle st) (convertAwait st)
    (previewAwait st) (invoked st) (console st).
Definition set_adjustedPreviewUrl (v : string) (st : App) : App :=
  Build_App
    (gifLoaded st) v (params st) (loading st) (error st) (viewportRef st)
    (asciiRef st) (isUpdating st) (pendingUpdate st) (paramsRef st)
    (asciiBuffer st) (frameMetadata st) (animationFrameId st)
    (lastFrameTime st) (currentFrameIdx st) (isInteractive st)
    (debounceTimer st) (timeouts st) (nextHandle st) (convertAwait st)
    (previewAwait st) (invoked st) (console st).
Definition set_params (v : Params) (st : App) : App :=
  Build_App
    (gifLoaded st) (adjustedPreviewUrl st) v (loading st) (error st)
    (viewportRef st) (asciiRef st) (isUpdating st) (pendingUpdate st)
    (paramsRef st) (asciiBuffer st) (frameMetadata st) (animationFrameId st)
    (lastFrameTime st) (currentFrameIdx st) (isInteractive st)
    (debounceTimer st) (timeouts st) (nextHandle st) (convertAwait st)
    (previewAwait st) (invoked st) (console st).
Definition set_loading (v : bool) (st : App) : App :=
  Build_App
    (gifLoaded st) (adjustedPreviewUrl st) (params st) v (error st)
    (viewportRef st) (asciiRef st) (isUpdating st) (pendingUpdate st)
    (paramsRef st) (asciiBuffer st) (frameMetadata st) (animationFrameId st)
    (lastFrameTime st) (currentFrameIdx st) (isInteractive st)
    (debounceTimer st) (timeouts st) (nextHandle st) (convertAwait st)
    (previewAwait st) (invoked st) (console st).
Definition set_error (v : string) (st : App) : App :=
  Build_App
    (gifLoaded st) (adjustedPreviewUrl st) (params st) (loading st) v
    (viewportRef st) (asciiRef st) (isUpdating st) (pendingUpdate st)
    (paramsRef st) (asciiBuffer st) (frameMetadata st) (animationFrameId st)
    (lastFrameTime st) (currentFrameIdx st) (isInteractive st)
    (debounceTimer st) (timeouts st) (nextHandle st) (convertAwait st)
    (previewAwait st) (invoked st) (console st).
Definition set_viewportRef (v : option Div) (st : App) : App :=
  Build_App
    (gifLoaded st) (adjustedPreviewUrl st) (params st) (loading st)
    (error st) v (asciiRef st) (isUpdating st) (pendingUpdate st)
    (paramsRef st) (asciiBuffer st) (frameMetadata st) (animationFrameId st)
    (lastFrameTime st) (currentFrameIdx st) (isInteractive st)
    (debounceTimer st) (timeouts st) (nextHandle st) (convertAwait st)
    (previewAwait st) (invoked st) (console st).
Definition set_asciiRef (v : option Pre) (st : App) : App :=
  Build_App
    (gifLoaded st) (adjustedPreviewUrl st) (params st) (loading st)
    (error st) (viewportRef st) v (isUpdating st) (pendingUpdate st)
    (paramsRef st) (asciiBuffer st) (frameMetadata st) (animationFrameId st)
    (lastFrameTime st) (currentFrameIdx st) (isInteractive st)
    (debounceTimer st) (timeouts st) (nextHandle st) (convertAwait st)
    (previewAwait st) (invoked st) (console st).
Definition set_isUpdating (v : bool) (st : App) : App :=
  Build_App
    (gifLoaded st) (adjustedPreviewUrl st) (params st) (loading st)
    (error st) (viewportRef st) (asciiRef st) v (pendingUpdate st)
    (paramsRef st) (asciiBuffer st) (frameMetadata st) (animationFrameId st)
    (lastFrameTime st) (currentFrameIdx st) (isInteractive st)
    (debounceTimer st) (timeouts st) (nextHandle st) (convertAwait st)
    (previewAwait st) (invoked st) (console st).
Definition set_pendingUpdate (v : bool) (st : App) : App :=
  Build_App
    (gifLoaded st) (adjustedPreviewUrl st) (params st) (loading st)
    (error st) (viewportRef st) (asciiRef st) (isUpdating st) v
    (paramsRef st) (asciiBuffer st) (frameMetadata st) (animationFrameId st)
    (lastFrameTime st) (currentFrameIdx st) (isInteractive st)
    (debounceTimer st) (timeouts st) (nextHandle st) (convertAwait st)
    (previewAwait st) (invoked st) (console st).
Definition set_paramsRef (v : Params) (st : App) : App :=
  Build_App
    (gifLoaded st) (adjustedPreviewUrl st) (params st) (loading st)
    (error st) (viewportRef st) (asciiRef st) (isUpdating st)
    (pendingUpdate st) v (asciiBuffer st) (frameMetadata st)
    (animationFrameId st) (lastFrameTime st) (currentFrameIdx st)
    (isInteractive st) (debounceTimer st) (timeouts st) (nextHandle st)
    (convertAwait st) (previewAwait st) (invoked st) (console st).
Definition set_asciiBuffer (v : option Uint8Array) (st : App) : App :=
  Build_App
    (gifLoaded st) (adjustedPreviewUrl st) (params st) (loading st)
    (error st) (viewportRef st) (asciiRef st) (isUpdating st)
    (pendingUpdate st) (paramsRef st) v (frameMetadata st)
    (animationFrameId st) (lastFrameTime st) (currentFrameIdx st)
    (isInteractive st) (debounceTimer st) (timeouts st) (nextHandle st)
    (convertAwait st) (previewAwait st) (invoked st) (console st).
Definition set_frameMetadata (v : FrameMetadata) (st : App) : App :=
  Build_App
    (gifLoaded st) (adjustedPreviewUrl st) (params st) (loading st)
    (error st) (viewportRef st) (asciiRef st) (isUpdating st)
    (pendingUpdate st) (paramsRef st) (asciiBuffer st) v
    (animationFrameId st) (lastFrameTime st) (currentFrameIdx st)
    (isInteractive st) (debounceTimer st) (timeouts st) (nextHandle st)
    (convertAwait st) (previewAwait st) (invoked st) (console st).
Definition set_animationFrameId (v : option Z) (st : App) : App :=
  Build_App
    (gifLoaded st) (adjustedPreviewUrl st) (params st) (loading st)
    (error st) (viewportRef st) (asciiRef st) (isUpdating st)
    (pendingUpdate st) (paramsRef st) (asciiBuffer st) (frameMetadata st) v
    (lastFrameTime st) (currentFrameIdx st) (isInteractive st)
    (debounceTimer st) (timeouts st) (nextHandle st) (convertAwait st)
    (previewAwait st) (invoked st) (console st).
Definition set_lastFrameTime (v : Q) (st : App) : App :=
  Build_App
    (gifLoaded st) (adjustedPreviewUrl st) (params st) (loading st)
    (error st) (viewportRef st) (asciiRef st) (isUpdating st)
    (pendingUpdate st) (paramsRef st) (asciiBuffer st) (frameMetadata st)
    (animationFrameId st) v (currentFrameIdx st) (isInteractive st)
    (debounceTimer st) (timeouts st) (nextHandle st) (convertAwait st)
    (previewAwait st) (invoked st) (console st).
Definition set_currentFrameIdx (v : Z) (st : App) : App :=
  Build_App
    (gifLoaded st) (adjustedPreviewUrl st) (params st) (loading st)
    (error st) (viewportRef st) (asciiRef st) (isUpdating st)
    (pendingUpdate st) (paramsRef st) (asciiBuffer st) (frameMetadata st)
    (animationFrameId st) (lastFrameTime st) v (isInteractive st)
    (debounceTimer st) (timeouts st) (nextHandle st) (convertAwait st)
    (previewAwait st) (invoked st) (console st).
Definition set_isInteractive (v : bool) (st : App) : App :=
  Build_App
    (gifLoaded st) (adjustedPreviewUrl st) (params st) (loading st)
    (error st) (viewportRef st) (asciiRef st) (isUpdating st)
    (pendingUpdate st) (paramsRef st) (asciiBuffer st) (frameMetadata st)
    (animationFrameId st) (lastFrameTime st) (currentFrameIdx st) v
    (debounceTimer st) (timeouts st) (nextHandle st) (convertAwait st)
    (previewAwait st) (invoked st) (console st).
Definition set_debounceTimer (v : option Z) (st : App) : App :=
  Build_App
    (gifLoaded st) (adjustedPreviewUrl st) (params st) (loading st)
    (error st) (viewportRef st) (asciiRef st) (isUpdating st)
    (pendingUpdate st) (paramsRef st) (asciiBuffer st) (frameMetadata st)
    (animationFrameId st) (lastFrameTime st) (currentFrameIdx st)
    (isInteractive st) v (timeouts st) (nextHandle st) (convertAwait st)
    (previewAwait st) (invoked st) (console st).
Definition set_timeouts (v : list Timeout) (st : App) : App :=
  Build_App
    (gifLoaded st) (adjustedPreviewUrl st) (params st) (loading st)
    (error st) (viewportRef st) (asciiRef st) (isUpdating st)
    (pendingUpdate st) (paramsRef st) (asciiBuffer st) (frameMetadata st)
    (animationFrameId st) (lastFrameTime st) (currentFrameIdx st)
    (isInteractive st) (debounceTimer st) v (nextHandle st) (convertAwait st)
    (previewAwait st) (invoked st) (console st).
Definition set_nextHandle (v : Z) (st : App) : App :=
  Build_App
    (gifLoaded st) (adjustedPreviewUrl st) (params st) (loading st)
    (error st) (viewportRef st) (asciiRef st) (isUpdating st)
    (pendingUpdate st) (paramsRef st) (asciiBuffer st) (frameMetadata st)
    (animationFrameId st) (lastFrameTime st) (currentFrameIdx st)
    (isInteractive st) (debounceTimer st) (timeouts st) v (convertAwait st)
    (previewAwait st) (invoked st) (console st).
Definition set_convertAwait (v : list ConvertArgs) (st : App) : App :=
  Build_App
    (gifLoaded st) (adjustedPreviewUrl st) (params st) (loading st)
    (error st) (viewportRef st) (asciiRef st) (isUpdating st)
    (pendingUpdate st) (paramsRef st) (asciiBuffer st) (frameMetadata st)
    (animationFrameId st) (lastFrameTime st) (currentFrameIdx st)
    (isInteractive st) (debounceTimer st) (timeouts st) (nextHandle st) v
    (previewAwait st) (invoked st) (console st).
Definition set_previewAwait (v : list PreviewArgs) (st : App) : App :=
  Build_App
    (gifLoaded st) (adjustedPreviewUrl st) (params st) (loading st)
    (error st) (viewportRef st) (asciiRef st) (isUpdating st)
    (pendingUpdate st) (paramsRef st) (asciiBuffer st) (frameMetadata st)
    (animationFrameId st) (lastFrameTime st) (currentFrameIdx st)
    (isInteractive st) (debounceTimer st) (timeouts st) (nextHandle st)
    (convertAwait st) v (invoked st) (console st).
Definition set_invoked (v : list Invoke) (st : App) : App :=
  Build_App
    (gifLoaded st) (adjustedPreviewUrl st) (params st) (loading st)
    (error st) (viewportRef st) (asciiRef st) (isUpdating st)
    (pendingUpdate st) (paramsRef st) (asciiBuffer st) (frameMetadata st)
    (animationFrameId st) (lastFrameTime st) (currentFrameIdx st)
    (isInteractive st) (debounceTimer st) (timeouts st) (nextHandle st)
    (convertAwait st) (previewAwait st) v (console st).
Definition set_console (v : list string) (st : App) : App :=
  Build_App
    (gifLoaded st) (adjustedPreviewUrl st) (params st) (loading st)
    (error st) (viewportRef st) (asciiRef st) (isUpdating st)
    (pendingUpdate st) (paramsRef st) (asciiBuffer st) (frameMetadata st)
    (animationFrameId st) (lastFrameTime st) (currentFrameIdx st)
    (isInteractive st) (debounceTimer st) (timeouts st) (nextHandle st)
    (convertAwait st) (previewAwait st) (invoked st) v.

(** ** The platform

    What the browser computes and the source only calls:
    [TextDecoder.decode], and the layout's [scrollWidth] and
    [scrollHeight] of the [<pre>] in a given state. *)
Class Platform : Type := {
  decode : Uint8Array -> string;
  scrollWidth : Pre -> Z;
  scrollHeight : Pre -> Z
}.

(** The state setters the sliders pass to [handleParamChange]. *)
Inductive Updater : Type :=
| setWidth (v : Z)
| setBrightness (v : Z)
| setContrast (v : Q).

Definition apply_updater (u : Updater) (p : Params) : Params :=
  match u with
  | setWidth v => Build_Params v (brightness p) (contrast p)
  | setBrightness v => Build_Params (width p) v (contrast p)
  | setContrast v => Build_Params (width p) (brightness p) v
  end.

(** The effect [paramsRef.current = { width, brightness, contrast }], run
    after the render that follows a state change. *)
Definition sync_paramsRef (st : App) : App := set_paramsRef (params st) st.

(** ** Core operations *)

(** Assigning ["translate(-50%, -50%) scale(${scale})"] to
    [style.transform]: a declaration whose number is not finite is not
    valid CSS and leaves the property as it was. *)
Definition assign_scale (scale : num) (old : Transform) : Transform :=
  match scale with
  | Fin s => TransformCenterScale s
  | _ => old
  end.

Definition calculateAndApplyScale (st : App) : App :=
  match asciiRef st, viewportRef st with
  | Some pre, Some viewport =>
      if rawW (frameMetadata st) =? 0 then st
      else
        let viewportWidth := clientWidth viewport in
        let viewportHeight := clientHeight viewport in
        let margin := 40 in
        let scale :=
          Num.min (div_Z (viewportWidth - margin) (rawW (frameMetadata st)))
                  (div_Z (viewportHeight - margin) (rawH (frameMetadata st))) in
        set_asciiRef
          (Some (set_transform (assign_scale scale (transform pre)) pre)) st
  | _, _ => st
  end.

(** The range [renderFrame] slices [buffer] at: [start] and [end] as the
    source computes them, before [subarray] clamps them. *)
Definition slice_bounds (count : Z) (size : num) (buffer : Uint8Array)
  (idx : Z) : num * num :=
  let safeIdx := Z.rem idx count in
  let isSingleFrameBuffer := Num.eqb (of_Z (length_of buffer)) size in
  let start := if isSingleFrameBuffer then of_Z 0 else mul_Z safeIdx size in
  let end_ := Num.add start size in
  (start, end_).

(** The slice itself: the bytes [renderFrame] decodes for [idx]. *)
Definition sliceFor (count : Z) (size : num) (buffer : Uint8Array)
  (idx : Z) : Uint8Array :=
  let (start, end_) := slice_bounds count size buffer idx in
  subarray buffer start end_.

Section Closures.

Context {platform : Platform}.

(** The [gifLoaded] of the render that created the callbacks: the
    dependency of the [useCallback]s. *)
Variable loaded : bool.

(** [updatePreview] up to its [await]. *)
Definition updatePreview (frameIdx : Z) (st : App) : App :=
  if negb loaded then st
  else
    let a := {| arg_preview_brightness := brightness (paramsRef st);
                arg_preview_contrast := contrast (paramsRef st);
                arg_frameIndex := frameIdx |} in
    set_previewAwait (previewAwait st ++ [a])
      (set_invoked (invoked st ++ [apply_adjustments_to_preview a]) st).

Definition renderFrame (idx : Z) (bufferOverride : option Uint8Array)
  (st : App) : App :=
  let buffer :=
    match bufferOverride with
    | Some b => Some b
    | None => asciiBuffer st
    end in
  match buffer, asciiRef st with
  | Some buffer, Some pre =>
      if count (frameMetadata st) =? 0 then st
      else
        let count := count (frameMetadata st) in
        let size := size (frameMetadata st) in
        let safeIdx := Z.rem idx count in
        let slice := sliceFor count size buffer idx in
        let st := set_asciiRef
                    (Some (set_textContent (decode slice) pre)) st in
        let st := set_currentFrameIdx safeIdx st in
        let st := calculateAndApplyScale st in
        updatePreview safeIdx st
  | _, _ => st
  end.

(** The measurement inside [convert]: one decoded frame is put in the
    [<pre>] with the transform off, its scroll box is read, and text and
    transform are put back. *)
Definition measureGlyphGrid (onlyFrame : option Z) (data : Uint8Array)
  (st : App) : App :=
  match asciiRef st with
  | Some pre =>
      let originalTransform := transform pre in
      let originalText := textContent pre in
      let pre := set_transform TransformNone pre in
      let frames :=
        match onlyFrame with
        | Some _ => 1
        | None => count (frameMetadata st)
        end in
      let pre :=
        set_textContent
          (decode (subarray data (of_Z 0) (div_Z (length_of data) frames)))
          pre in
      let st := set_frameMetadata
                  (set_rawW (scrollWidth pre) (frameMetadata st)) st in
      let st := set_frameMetadata
                  (set_rawH (scrollHeight pre) (frameMetadata st)) st in
      let pre := set_transform originalTransform pre in
      let pre := set_textContent originalText pre in
      set_asciiRef (Some pre) st
  | None => st
  end.

(** The branch of [convert] for one frame: the frame's bytes are rendered
    as an override and [size] becomes their length. *)
Definition installSingle (data : Uint8Array) (frameIndex : Z) (st : App)
  : App :=
  let st := set_frameMetadata
              (set_size (of_Z (length_of data)) (frameMetadata st)) st in
  renderFrame frameIndex (Some data) st.

(** The branch for all frames: the buffer is replaced and [size] becomes
    [data.length / count]. *)
Definition install (data : Uint8Array) (st : App) : App :=
  let st := set_asciiBuffer (Some data) st in
  let st := set_frameMetadata
              (set_size (div_Z (length_of data) (count (frameMetadata st)))
                 (frameMetadata st)) st in
  renderFrame (currentFrameIdx st) None st.

(** The head of the [while (true)] loop, up to the [await]. *)
Definition convert_loop (onlyFrame : option Z) (st : App) : App :=
  let st := set_pendingUpdate false st in
  let a := {| arg_width := width (paramsRef st);
              arg_brightness := brightness (paramsRef st);
              arg_contrast := contrast (paramsRef st);
              arg_onlyFrame := onlyFrame |} in
  set_convertAwait (convertAwait st ++ [a])
    (set_invoked (invoked st ++ [convert_gif_to_ascii a]) st).

(** [convert] up to its first [await]. *)
Definition convert (onlyFrame : option Z) (st : App) : App :=
  if negb loaded then st
  else if isUpdating st then set_pendingUpdate true st
  else convert_loop onlyFrame (set_isUpdating true st).

(** Applying a response's bytes: measure, then install. *)
Definition apply_response (onlyFrame : option Z) (data : Uint8Array)
  (st : App) : App :=
  if 0 <? length_of data then
    let st := measureGlyphGrid onlyFrame data st in
    match onlyFrame with
    | Some frame => installSingle data frame st
    | None => install data st
    end
  else st.

(** The rest of a loop iteration once the [invoke] resolved: apply the
    response, then either go round again or leave through [finally]. *)
Definition convert_resolved (onlyFrame : option Z)
  (response : Z * Uint8Array) (st : App) : App :=
  let data := snd response in
  let st := apply_response onlyFrame data st in
  if pendingUpdate st then convert_loop onlyFrame st
  else set_isUpdating false st.

(** The [invoke] rejected: [catch], then [finally]. *)
Definition convert_rejected (e : string) (st : App) : App :=
  set_isUpdating false (set_error e st).

(** [animate], the [requestAnimationFrame] callback. *)
Definition animate (time : Q) (st : App) : App :=
  let st :=
    if negb (isInteractive st)
       && negb (Qle_bool (time - lastFrameTime st) 100)
    then
      let st := set_lastFrameTime time st in
      renderFrame (currentFrameIdx st + 1) None st
    else st in
  let id := nextHandle st in
  set_animationFrameId (Some id) (set_nextHandle (id + 1) st).

End Closures.

(** [updatePreview] after its [await]. *)
Definition updatePreview_settled (r : Settled string) (st : App) : App :=
  match r with
  | Resolved b64 => set_adjustedPreviewUrl b64 st
  | Rejected e =>
      set_console (console st ++ [("Preview error: " ++ e)%string]) st
  end.

(** ** Event handlers *)

Definition clearTimeout (h : Z) (st : App) : App :=
  set_timeouts (filter (fun t => negb (handle t =? h)) (timeouts st)) st.

(** [window.setTimeout(callback, ms)]; the handle returned is the
    [nextHandle] of the state it is called in. *)
Definition setTimeout (loaded : bool) (ms : Z) (st : App) : App :=
  let h := nextHandle st in
  set_timeouts
    (timeouts st
       ++ [{| handle := h; delay := ms; closure_gifLoaded := loaded |}])
    (set_nextHandle (h + 1) st).

Section Handlers.

Context {platform : Platform}.

(** [if (debounceTimer.current) clearTimeout(debounceTimer.current)]. *)
Definition cancel_debounce (st : App) : App :=
  match debounceTimer st with
  | Some h => if h =? 0 then st else clearTimeout h st
  | None => st
  end.

(** [handleParamChange].  [updater()] queues the state change; the
    handler itself reads no state, and [convert] reads [paramsRef],
    which the effect refreshes only after the handler returned. *)
Definition handleParamChange (loaded : bool) (updater : Updater)
  (st : App) : App :=
  let st := set_isInteractive true st in
  let st := set_params (apply_updater updater (params st)) st in
  let st := convert loaded (Some (currentFrameIdx st)) st in
  let st := cancel_debounce st in
  let h := nextHandle st in
  let st := setTimeout loaded 150 st in
  set_debounceTimer (Some h) st.

(** The callback given to [setTimeout]. *)
Definition debounce_callback (loaded : bool) (st : App) : App :=
  let st := set_isInteractive false st in
  convert loaded None st.

(** [handleOpen] from the chosen path to the [await] of [load_gif]. *)
Definition handleOpen_selected (st : App) : App :=
  let st := set_loading true st in
  let st := set_error EmptyString st in
  set_invoked (invoked st ++ [load_gif]) st.

(** The two effects that depend on [gifLoaded], in the order the
    component declares them, run after the render in which it became
    true. *)
Definition effects_on_gifLoaded (st : App) : App :=
  let st := convert true None st in
  if count (frameMetadata st) <=? 1 then st
  else
    let id := nextHandle st in
    set_animationFrameId (Some id) (set_nextHandle (id + 1) st).

(** [handleOpen] after the [await]. *)
Definition handleOpen_settled (r : Settled Z) (st : App) : App :=
  match r with
  | Resolved n =>
      let st := set_frameMetadata (set_count n (frameMetadata st)) st in
      let changed := negb (gifLoaded st) in
      let st := set_gifLoaded true st in
      let st := set_loading false st in
      if changed then effects_on_gifLoaded st else st
  | Rejected e =>
      let st := set_error e st in
      set_loading false st
  end.

(** ** The event loop *)

Inductive Event : Type :=
| OpenSelected
| LoadSettled (r : Settled Z)
| ParamChange (updater : Updater)
| TimeoutFired (h : Z)
| ConvertSettled (k : nat) (r : Settled (Z * Uint8Array))
| PreviewSettled (k : nat) (r : Settled string)
| AnimationFrame (time : Q)
| Resized (w h : Z).

Definition remove_nth {A : Type} (k : nat) (l : list A) : list A :=
  firstn k l ++ skipn (S k) l.

(** One turn of the event loop; [None] when the event cannot happen in
    this state (no such timer, no such pending call).  A slider's change
    is a discrete event: React renders and runs the effect that refreshes
    [paramsRef] before anything else is handled.  A suspended
    [convert] got past [if (!gifLoaded) return], and [animate] is only
    registered by the effect when [gifLoaded] holds: both run closures of
    a render with [gifLoaded = true]. *)
Definition step (e : Event) (st : App) : option App :=
  match e with
  | OpenSelected =>
      if loading st then None else Some (handleOpen_selected st)
  | LoadSettled r =>
      if loading st then Some (handleOpen_settled r st) else None
  | ParamChange updater =>
      Some (sync_paramsRef (handleParamChange (gifLoaded st) updater st))
  | TimeoutFired h =>
      match find (fun t => handle t =? h) (timeouts st) with
      | Some t =>
          Some (debounce_callback (closure_gifLoaded t) (clearTimeout h st))
      | None => None
      end
  | ConvertSettled k r =>
      match nth_error (convertAwait st) k with
      | Some a =>
          let st := set_convertAwait (remove_nth k (convertAwait st)) st in
          Some match r with
               | Resolved response =>
                   convert_resolved true (arg_onlyFrame a) response st
               | Rejected e => convert_rejected e st
               end
      | None => None
      end
  | PreviewSettled k r =>
      match nth_error (previewAwait st) k with
      | Some _ =>
          Some (updatePreview_settled r
                  (set_previewAwait (remove_nth k (previewAwait st)) st))
      | None => None
      end
  | AnimationFrame time =>
      match animationFrameId st with
      | Some _ => Some (animate true time st)
      | None => None
      end
  | Resized w h =>
      Some (calculateAndApplyScale
              (set_viewportRef
                 (Some {| clientWidth := w; clientHeight := h |}) st))
  end.

Fixpoint run (es : list Event) (st : App) : option App :=
  match es with
  | [] => Some st
  | e :: es =>
      match step e st with
      | Some st => run es st
      | None => None
      end
  end.

(** The component once mounted in a viewport of the given size. *)
Definition mounted (w h : Z) : App :=
  let defaults := {| width := 100; brightness := 0; contrast := 1 |} in
  {| gifLoaded := false;
     adjustedPreviewUrl := EmptyString;
     params := defaults;
     loading := false;
     error := EmptyString;
     viewportRef := Some {| clientWidth := w; clientHeight := h |};
     asciiRef := Some {| textContent := EmptyString;
                         transform := TransformUnset |};
     isUpdating := false;
     pendingUpdate := false;
     paramsRef := defaults;
     asciiBuffer := None;
     frameMetadata := {| count := 0; size := of_Z 0; rawW := 0; rawH := 0 |};
     animationFrameId := None;
     lastFrameTime := 0;
     currentFrameIdx := 0;
     isInteractive := false;
     debounceTimer := None;
     timeouts := [];
     nextHandle := 1;
     convertAwait := [];
     previewAwait := [];
     invoked := [];
     console := [] |}.

Inductive reachable : App -> Prop :=
| reachable_mounted (w h : Z) : reachable (mounted w h)
| reachable_step (e : Event) (st st' : App) :
    reachable st -> step e st = Some st' -> reachable st'.

End Handlers.

(** ** Views of the state *)

(** The conversions among the backend calls made so far. *)
Fixpoint conversions (calls : list Invoke) : list ConvertArgs :=
  match calls with
  | [] => []
  | convert_gif_to_ascii a :: calls => a :: conversions calls
  | _ :: calls => conversions calls
  end.

(** The request coordinator's state, the parameters, the timers and the
    playback flags: everything [renderFrame] and the measurement never
    write. *)
Definition control (st : App) :=
  (gifLoaded st, params st, paramsRef st, loading st, error st,
   (isUpdating st, pendingUpdate st, convertAwait st,
    conversions (invoked st)),
   (isInteractive st, lastFrameTime st, animationFrameId st),
   (debounceTimer st, timeouts st, nextHandle st),
   (console st, viewportRef st, adjustedPreviewUrl st)).

(** The frame buffer with its layout and measured grid. *)
Definition frame_buffer (st : App) := (asciiBuffer st, frameMetadata st).

(** The playback state. *)
Definition playback (st : App) :=
  (currentFrameIdx st, lastFrameTime st, isInteractive st).

(** The arguments [convert_loop] sends for a parameter snapshot. *)
Definition convert_args (p : Params) (onlyFrame : option Z) : ConvertArgs :=
  {| arg_width := width p;
     arg_brightness := brightness p;
     arg_contrast := contrast p;
     arg_onlyFrame := onlyFrame |}.

(** ** Invariants of the event loop *)

(** Either no conversion is awaited and the flag is down, or exactly one
    is and the flag is up. *)
Definition single_flight (st : App) : Prop :=
  (convertAwait st = [] /\ isUpdating st = false) \/
  (exists a, convertAwait st = [a] /\ isUpdating st = true).

(** Handles are positive, at most one debounce timeout is armed, and it is
    the one [debounceTimer] names. *)
Definition timers_wf (st : App) : Prop :=
  0 < nextHandle st /\
  (timeouts st = [] \/
   exists t, timeouts st = [t] /\ debounceTimer st = Some (handle t)) /\
  (forall t, In t (timeouts st) ->
     delay t = 150 /\ (closure_gifLoaded t = true -> gifLoaded st = true)) /\
  (forall h, debounceTimer st = Some h -> 0 < h).

Definition flight_inv (st : App) : Prop :=
  single_flight st /\
  (isUpdating st = true -> gifLoaded st = true) /\
  timers_wf st.

(** Between two events [paramsRef] is in step with the parameters. *)
Definition coordinator_inv (st : App) : Prop :=
  params st = paramsRef st /\ flight_inv st.

(** ** A platform and byte strings for the examples *)

(** ASCII decoding and a one-line layout of 8 by 16 pixel glyphs. *)
Definition ascii_platform : Platform :=
  {| decode := string_of_list_byte;
     scrollWidth := fun pre => 8 * Z.of_nat (String.length (textContent pre));
     scrollHeight := fun _ => 16 |}.

Definition bytes (n : nat) (b : byte) : Uint8Array := repeat b n.

(** The state the events lead to from a component mounted in an 800 by 600
    viewport on [ascii_platform]; the mounted state itself if they cannot
    happen in that order. *)
Definition after (es : list Event) : App :=
  match run (platform := ascii_platform) es (mounted 800 600) with
  | Some st => st
  | None => mounted 800 600
  end.

(** The measured frame the [<pre>] shows while [measureGlyphGrid] reads
    its scroll box. *)
Definition probe {platform : Platform} (onlyFrame : option Z)
  (data : Uint8Array) (st : App) : Pre :=
  let frames :=
    match onlyFrame with
    | Some _ => 1
    | None => count (frameMetadata st)
    end in
  {| textContent :=
       decode (subarray data (of_Z 0) (div_Z (length_of data) frames));
     transform := TransformNone |}.

(** A source of two frames of ten bytes each, and the start of a session:
    it is opened and its first bulk conversion has been applied. *)
Definition two_frames : Uint8Array := bytes 10 "a" ++ bytes 10 "b".

Definition session_start : list Event :=
  [OpenSelected; LoadSettled (Resolved 2);
   ConvertSettled 0 (Resolved (2, two_frames))].

(** The first slider move of that session. *)
Definition first_edit : list Event :=
  session_start ++ [ParamChange (setBrightness 10)].

(** Five frames of ten bytes each. *)
Definition five_frames : Uint8Array :=
  bytes 10 "a" ++ bytes 10 "b" ++ bytes 10 "c" ++ bytes 10 "d"
    ++ bytes 10 "e".

(** A source of three frames answered with ten bytes. *)
Definition indivisible_session : list Event :=
  [OpenSelected; LoadSettled (Resolved 3);
   ConvertSettled 0 (Resolved (3, bytes 10 "a"))].

(** Two edits of the brightness, each followed by the arrival of the
    single-frame conversion it started; the frame rendered on arrival asks
    for a preview with the brightness of that moment, first 10, then 20.
    The preview issued by the session's first render is answered before
    the edits. *)
Definition two_previews_pending : list Event :=
  session_start
    ++ [PreviewSettled 0 (Resolved "preview b=0"%string);
        ParamChange (setBrightness 10);
        ConvertSettled 0 (Resolved (2, bytes 10 "a"));
        ParamChange (setBrightness 20);
        ConvertSettled 0 (Resolved (2, bytes 10 "a"))].

(** The newer preview arrives first, the older one after it. *)
Definition stale_preview_last : list Event :=
  two_previews_pending
    ++ [PreviewSettled 1 (Resolved "preview b=20"%string);
        PreviewSettled 0 (Resolved "preview b=10"%string)].

(** The session's first preview is rejected. *)
Definition preview_rejected : list Event :=
  session_start ++ [PreviewSettled 0 (Rejected "decode failed")].

(** The slider moves once, to brightness 10, and the single-frame
    conversion that starts is still awaited when the debounce timeout
    (handle 2; handle 1 went to the animation frame) fires.  Then that
    conversion resolves, and so does the one the loop sends next. *)
Definition fired_while_in_flight : list Event :=
  first_edit
    ++ [TimeoutFired 2;
        ConvertSettled 0 (Resolved (2, bytes 10 "a"));
        ConvertSettled 0 (Resolved (2, bytes 10 "a"))].

(** The slider moved once and the conversion it started has resolved; the
    debounce timeout is still armed. *)
Definition edit_settled : list Event :=
  first_edit ++ [ConvertSettled 0 (Resolved (2, bytes 10 "a"))].

(** The width goes from 100 to 149 to 150.  The first move starts a
    single-frame conversion with the width of before, the second is
    coalesced; the first response has ten bytes, the replay at width 150
    fifteen.  Then the debounce timeout (handle 3) fires and starts the bulk
    conversion, which is still awaited. *)
Definition wider_frame : list Event :=
  session_start
    ++ [ParamChange (setWidth 149);
        ParamChange (setWidth 150);
        ConvertSettled 0 (Resolved (2, bytes 10 "a"));
        ConvertSettled 0 (Resolved (2, bytes 15 "c"));
        TimeoutFired 3].

(** The source is opened and its first bulk conversion is awaited. *)
Definition loading_done : list Event :=
  [OpenSelected; LoadSettled (Resolved 2)].

(** ** The export *)

(** The byte ranges [handleDownload] cuts the buffer into: for [i] from 0
    below [count], [subarray(i * size, (i + 1) * size)]. *)
Definition download_slices (st : App) (buffer : Uint8Array)
  : list Uint8Array :=
  let count := count (frameMetadata st) in
  let size := size (frameMetadata st) in
  map (fun i => subarray buffer (mul_Z i size) (mul_Z (i + 1) size))
    (map Z.of_nat (seq 0 (Z.to_nat count))).

(** [handleDownload] once the save dialog has settled with [path]: the
    arguments of the [save_ascii_to_file] call, if it is made.  Nothing is
    saved without a buffer (the handler returns before the dialog) or
    without a path (the dialog was dismissed). *)
Definition handleDownload {platform : Platform} (path : option string)
  (st : App) : option (string * list string) :=
  match asciiBuffer st with
  | None => None
  | Some buffer =>
      match path with
      | None | Some EmptyString => None
      | Some path => Some (path, map decode (download_slices st buffer))
      end
  end.

(** ** Further views and invariants *)

(** The displayed frame index and the frame of every awaited single-frame
    conversion are not negative. *)
Definition frame_indices_nonneg (st : App) : Prop :=
  0 <= currentFrameIdx st /\
  forall a frame,
    In a (convertAwait st) -> arg_onlyFrame a = Some frame -> 0 <= frame.

(** Nothing has happened to frames yet: no buffer, no layout, nothing
    rendered, nothing awaited, no animation, and no backend call other
    than [load_gif]. *)
Definition untouched (st : App) : Prop :=
  asciiBuffer st = None /\
  frameMetadata st = {| count := 0; size := of_Z 0; rawW := 0; rawH := 0 |} /\
  asciiRef st = Some {| textContent := EmptyString;
                        transform := TransformUnset |} /\
  currentFrameIdx st = 0 /\
  adjustedPreviewUrl st = EmptyString /\
  isUpdating st = false /\
  convertAwait st = [] /\
  previewAwait st = [] /\
  animationFrameId st = None /\
  forall call, In call (invoked st) -> call = load_gif.

(** Animation frames each more than 100 ms after the one before, the
    first more than 100 ms after [last]. *)
Fixpoint spaced (last : Q) (times : list Q) : Prop :=
  match times with
  | [] => True
  | t :: times => (100 < t - last)%Q /\ spaced t times
  end.

(** The time of the last advance after the frames at [times]. *)
Definition last_time (last : Q) (times : list Q) : Q :=
  List.last times last.

(** A source was loaded, an edit started a single-frame conversion, and
    that conversion was rejected after a second edit had been coalesced:
    the component is idle with [pendingUpdate] still set. *)
Definition rejected_with_pending : list Event :=
  first_edit
    ++ [ParamChange (setBrightness 20);
        ConvertSettled 0 (Rejected "out of memory")].

(** The preview request [updatePreview] sends for a frame. *)
Definition preview_args (p : Params) (frameIdx : Z) : PreviewArgs :=
  {| arg_preview_brightness := brightness p;
     arg_preview_contrast := contrast p;
     arg_frameIndex := frameIdx |}.

(** The session's bulk conversion has been applied and an animation frame
    has since been registered; the first preview is still awaited. *)
Definition playing : list Event := session_start.

(** Interactive exactly while a debounce timeout is armed. *)
Definition interactive_iff_armed (st : App) : Prop :=
  isInteractive st = true <-> timeouts st <> [].

(** The window is narrowed to 30 pixels, less than the margin, once the
    first frames are shown. *)
Definition narrow_window : list Event := session_start ++ [Resized 30 600].

(** ** The earlier variant of the component

    The second [App] of the file: the frames are an array of strings, one
    effect calls [updatePreview] and [convert] after every change of a
    parameter, and a [setInterval] of 100 ms steps through the frames.  Its
    callbacks close over the parameters of the render that created them;
    the effect runs them right after that render, so they send the
    parameters of the state they run in. *)

Module Legacy.

Inductive Invoke : Type :=
| load_gif
| convert_gif_to_ascii (p : Params)
| apply_adjustments_to_preview (brightness : Z) (contrast : Q).

(** React state, the [isUpdating] ref, the calls awaited, and the history
    of backend calls and of [console.error]. *)
Record App : Type := {
  gifLoaded : bool;
  adjustedPreviewUrl : string;
  asciiFrames : list string;
  currentFrame : Z;
  params : Params;
  loading : bool;
  previewLoading : bool;
  error : string;
  isUpdating : bool;
  convertAwait : list Params;
  previewAwait : list (Z * Q);
  invoked : list Invoke;
  console : list string
}.

Definition set_gifLoaded (v : bool) (st : App) : App :=
  Build_App
    v (adjustedPreviewUrl st) (asciiFrames st) (currentFrame st) (params st)
    (loading st) (previewLoading st) (error st) (isUpdating st)
    (convertAwait st) (previewAwait st) (invoked st) (console st).
Definition set_adjustedPreviewUrl (v : string) (st : App) : App :=
  Build_App
    (gifLoaded st) v (asciiFrames st) (currentFrame st) (params st)
    (loading st) (previewLoading st) (error st) (isUpdating st)
    (convertAwait st) (previewAwait st) (invoked st) (console st).
Definition set_asciiFrames (v : list string) (st : App) : App :=
  Build_App
    (gifLoaded st) (adjustedPreviewUrl st) v (currentFrame st) (params st)
    (loading st) (previewLoading st) (error st) (isUpdating st)
    (convertAwait st) (previewAwait st) (invoked st) (console st).
Definition set_currentFrame (v : Z) (st : App) : App :=
  Build_App
    (gifLoaded st) (adjustedPreviewUrl st) (asciiFrames st) v (params st)
    (loading st) (previewLoading st) (error st) (isUpdating st)
    (convertAwait st) (previewAwait st) (invoked st) (console st).
Definition set_params (v : Params) (st : App) : App :=
  Build_App
    (gifLoaded st) (adjustedPreviewUrl st) (asciiFrames st) (currentFrame st)
    v (loading st) (previewLoading st) (error st) (isUpdating st)
    (convertAwait st) (previewAwait st) (invoked st) (console st).
Definition set_loading (v : bool) (st : App) : App :=
  Build_App
    (gifLoaded st) (adjustedPreviewUrl st) (asciiFrames st) (currentFrame st)
    (params st) v (previewLoading st) (error st) (isUpdating st)
    (convertAwait st) (previewAwait st) (invoked st) (console st).
Definition set_previewLoading (v : bool) (st : App) : App :=
  Build_App
    (gifLoaded st) (adjustedPreviewUrl st) (asciiFrames st) (currentFrame st)
    (params st) (loading st) v (error st) (isUpdating st) (convertAwait st)
    (previewAwait st) (invoked st) (console st).
Definition set_error (v : string) (st : App) : App :=
  Build_App
    (gifLoaded st) (adjustedPreviewUrl st) (asciiFrames st) (currentFrame st)
    (params st) (loading st) (previewLoading st) v (isUpdating st)
    (convertAwait st) (previewAwait st) (invoked st) (console st).
Definition set_isUpdating (v : bool) (st : App) : App :=
  Build_App
    (gifLoaded st) (adjustedPreviewUrl st) (asciiFrames st) (currentFrame st)
    (params st) (loading st) (previewLoading st) (error st) v
    (convertAwait st) (previewAwait st) (invoked st) (console st).
Definition set_convertAwait (v : list Params) (st : App) : App :=
  Build_App
    (gifLoaded st) (adjustedPreviewUrl st) (asciiFrames st) (currentFrame st)
    (params st) (loading st) (previewLoading st) (error st) (isUpdating st) v
    (previewAwait st) (invoked st) (console st).
Definition set_previewAwait (v : list (Z * Q)) (st : App) : App :=
  Build_App
    (gifLoaded st) (adjustedPreviewUrl st) (asciiFrames st) (currentFrame st)
    (params st) (loading st) (previewLoading st) (error st) (isUpdating st)
    (convertAwait st) v (invoked st) (console st).
Definition set_invoked (v : list Invoke) (st : App) : App :=
  Build_App
    (gifLoaded st) (adjustedPreviewUrl st) (asciiFrames st) (currentFrame st)
    (params st) (loading st) (previewLoading st) (error st) (isUpdating st)
    (convertAwait st) (previewAwait st) v (console st).
Definition set_console (v : list string) (st : App) : App :=
  Build_App
    (gifLoaded st) (adjustedPreviewUrl st) (asciiFrames st) (currentFrame st)
    (params st) (loading st) (previewLoading st) (error st) (isUpdating st)
    (convertAwait st) (previewAwait st) (invoked st) v.

(** [updatePreview] up to its [await]. *)
Definition updatePreview (st : App) : App :=
  if negb (gifLoaded st) then st
  else
    let st := set_previewLoading true st in
    let st :=
      set_invoked
        (invoked st
           ++ [apply_adjustments_to_preview (brightness (params st))
                 (contrast (params st))]) st in
    set_previewAwait
      (previewAwait st ++ [(brightness (params st), contrast (params st))])
      st.

(** [updatePreview] after its [await]: [try], [catch], [finally]. *)
Definition updatePreview_settled (r : Settled string) (st : App) : App :=
  let st :=
    match r with
    | Resolved b64 => set_adjustedPreviewUrl b64 st
    | Rejected e =>
        set_console (console st ++ [("Preview error: " ++ e)%string]) st
    end in
  set_previewLoading false st.

(** [convert] up to its [await]: a call that finds one in flight is
    dropped. *)
Definition convert (st : App) : App :=
  if negb (gifLoaded st) || isUpdating st then st
  else
    let st := set_isUpdating true st in
    let st :=
      set_invoked (invoked st ++ [convert_gif_to_ascii (params st)]) st in
    set_convertAwait (convertAwait st ++ [params st]) st.

(** [convert] after its [await]. *)
Definition convert_settled (r : Settled (list string)) (st : App) : App :=
  let st :=
    match r with
    | Resolved frames => set_asciiFrames frames st
    | Rejected e => set_error e st
    end in
  set_isUpdating false st.

(** The effect "trigger instantaneous updates on parameter change". *)
Definition reactive_pipeline (st : App) : App :=
  if gifLoaded st then convert (updatePreview st) else st.

(** Whether React sees a change of state: numbers compare by value. *)
Definition params_eqb (p q : Params) : bool :=
  (width p =? width q) && (brightness p =? brightness q)
  && Qeq_bool (contrast p) (contrast q).

(** A slider's [onChange]: the setter, then, if the state changed, the
    render and the effect. *)
Definition onChange (u : Updater) (st : App) : App :=
  let p := apply_updater u (params st) in
  if params_eqb p (params st) then st
  else reactive_pipeline (set_params p st).

Definition handleOpen_selected (st : App) : App :=
  let st := set_loading true st in
  let st := set_error EmptyString st in
  set_invoked (invoked st ++ [load_gif]) st.

Definition handleOpen_settled (r : Settled unit) (st : App) : App :=
  match r with
  | Resolved _ =>
      let changed := negb (gifLoaded st) in
      let st := set_gifLoaded true st in
      let st := set_loading false st in
      if changed then reactive_pipeline st else st
  | Rejected e =>
      let st := set_error e st in
      set_loading false st
  end.

(** The interval's callback:
    [setCurrentFrame((prev) => (prev + 1) % asciiFrames.length)]. *)
Definition tick (st : App) : App :=
  set_currentFrame
    (Z.rem (currentFrame st + 1) (Z.of_nat (List.length (asciiFrames st))))
    st.

(** What the [<pre>] shows; an index past the end renders nothing. *)
Definition rendered (st : App) : string :=
  match asciiFrames st with
  | [] => "WAITING FOR SOURCE DATA..."
  | _ :: _ =>
      match nth_error (asciiFrames st) (Z.to_nat (currentFrame st)) with
      | Some frame => frame
      | None => EmptyString
      end
  end.

Inductive Event : Type :=
| OpenSelected
| LoadSettled (r : Settled unit)
| ParamChange (updater : Updater)
| ConvertSettled (k : nat) (r : Settled (list string))
| PreviewSettled (k : nat) (r : Settled string)
| IntervalFired.

(** One turn of the event loop.  The interval exists while there is more
    than one frame. *)
Definition step (e : Event) (st : App) : option App :=
  match e with
  | OpenSelected =>
      if loading st then None else Some (handleOpen_selected st)
  | LoadSettled r =>
      if loading st then Some (handleOpen_settled r st) else None
  | ParamChange updater => Some (onChange updater st)
  | ConvertSettled k r =>
      match nth_error (convertAwait st) k with
      | Some _ =>
          Some (convert_settled r
                  (set_convertAwait (remove_nth k (convertAwait st)) st))
      | None => None
      end
  | PreviewSettled k r =>
      match nth_error (previewAwait st) k with
      | Some _ =>
          Some (updatePreview_settled r
                  (set_previewAwait (remove_nth k (previewAwait st)) st))
      | None => None
      end
  | IntervalFired =>
      if (1 <? Z.of_nat (List.length (asciiFrames st)))
      then Some (tick st) else None
  end.

Fixpoint run (es : list Event) (st : App) : option App :=
  match es with
  | [] => Some st
  | e :: es =>
      match step e st with
      | Some st => run es st
      | None => None
      end
  end.

Definition mounted : App :=
  {| gifLoaded := false;
     adjustedPreviewUrl := EmptyString;
     asciiFrames := [];
     currentFrame := 0;
     params := {| width := 100; brightness := 0; contrast := 1 |};
     loading := false;
     previewLoading := false;
     error := EmptyString;
     isUpdating := false;
     convertAwait := [];
     previewAwait := [];
     invoked := [];
     console := [] |}.

Inductive reachable : App -> Prop :=
| reachable_mounted : reachable mounted
| reachable_step (e : Event) (st st' : App) :
    reachable st -> step e st = Some st' -> reachable st'.

(** The conversions among the backend calls made so far. *)
Fixpoint conversions (calls : list Invoke) : list Params :=
  match calls with
  | [] => []
  | convert_gif_to_ascii p :: calls => p :: conversions calls
  | _ :: calls => conversions calls
  end.

(** Either no conversion is awaited and the flag is down, or exactly one
    is and the flag is up; and only a loaded source is converted. *)
Definition single_flight (st : App) : Prop :=
  ((convertAwait st = [] /\ isUpdating st = false) \/
   (exists p, convertAwait st = [p] /\ isUpdating st = true)) /\
  (isUpdating st = true -> gifLoaded st = true).

(** The state the events lead to from the mounted component. *)
Definition after (es : list Event) : App :=
  match run es mounted with
  | Some st => st
  | None => mounted
  end.

(** A source is opened and its first conversion is awaited. *)
Definition converting : list Event := [OpenSelected; LoadSettled (Resolved tt)].

(** Three frames are on display. *)
Definition three_frames : list Event :=
  converting
    ++ [ConvertSettled 0 (Resolved ["one"; "two"; "three"]%string)].

End Legacy.

(** * Properties *)

Ltac split_matches :=
  repeat match goal with
         | |- context [match ?x with _ => _ end] => destruct x eqn:?
         | |- context [if ?x then _ else _] => destruct x eqn:?
         end.

(** Turn [control a = control b] into the equations of its components. *)
Ltac control_eqs H :=
  unfold control in H; injection H; clear H; intros.

(** Closing the goals an unfolded invariant leaves. *)
Ltac inv_solve :=
  intuition eauto; try discriminate; try lia; try congruence;
  try match goal with
      | H : forall t, In t _ -> _ /\ _, Hi : In _ _ |- _ =>
          destruct (H _ Hi); auto
      end.

(** Closed goals about a concrete session: evaluate, then conclude. *)
Ltac by_evaluation :=
  vm_compute;
  first [reflexivity | discriminate
        | let H := fresh in intros H; discriminate H].

Lemma conversions_app (xs ys : list Invoke) :
  conversions (xs ++ ys) = conversions xs ++ conversions ys.
Proof.
  induction xs as [|x xs IH]; [reflexivity|].
  destruct x; simpl; rewrite IH; reflexivity.
Qed.

(** ** What rendering leaves alone *)

Section RenderingFrames.

Context {platform : Platform}.
Variable loaded : bool.

Lemma calculateAndApplyScale_control (st : App) :
  control (calculateAndApplyScale st) = control st.
Proof. unfold calculateAndApplyScale. split_matches; reflexivity. Qed.

Lemma updatePreview_control (i : Z) (st : App) :
  control (updatePreview loaded i st) = control st.
Proof.
  unfold updatePreview. split_matches; [reflexivity|].
  unfold control; cbn. rewrite conversions_app, app_nil_r. reflexivity.
Qed.

Lemma renderFrame_control (i : Z) (o : option Uint8Array) (st : App) :
  control (renderFrame loaded i o st) = control st.
Proof.
  unfold renderFrame.
  destruct o, (asciiBuffer st), (asciiRef st); try reflexivity;
    destruct (count (frameMetadata st) =? 0); try reflexivity;
    rewrite updatePreview_control, calculateAndApplyScale_control;
    reflexivity.
Qed.

Lemma renderFrame_frame_buffer (i : Z) (o : option Uint8Array) (st : App) :
  frame_buffer (renderFrame loaded i o st) = frame_buffer st.
Proof.
  unfold renderFrame, updatePreview, calculateAndApplyScale.
  split_matches; reflexivity.
Qed.

Lemma measureGlyphGrid_control (o : option Z) (d : Uint8Array) (st : App) :
  control (measureGlyphGrid o d st) = control st.
Proof. unfold measureGlyphGrid. split_matches; reflexivity. Qed.

Lemma installSingle_control (d : Uint8Array) (i : Z) (st : App) :
  control (installSingle loaded d i st) = control st.
Proof. unfold installSingle. rewrite renderFrame_control. reflexivity. Qed.

Lemma install_control (d : Uint8Array) (st : App) :
  control (install loaded d st) = control st.
Proof. unfold install. rewrite renderFrame_control. reflexivity. Qed.

Lemma apply_response_control (o : option Z) (d : Uint8Array) (st : App) :
  control (apply_response loaded o d st) = control st.
Proof.
  unfold apply_response. destruct (0 <? length_of d); [|reflexivity].
  destruct o.
  - rewrite installSingle_control. apply measureGlyphGrid_control.
  - rewrite install_control. apply measureGlyphGrid_control.
Qed.

End RenderingFrames.


(** ** The invariant of the event loop *)

Section Invariant.

Context {platform : Platform}.

Lemma timers_wf_control (a b : App) :
  control a = control b -> timers_wf a -> timers_wf b.
Proof.
  intros H I. control_eqs H. revert I. unfold timers_wf.
  repeat match goal with
         | E : ?p a = ?p b |- _ => rewrite E; clear E
         end.
  exact (fun I => I).
Qed.

Lemma flight_inv_control (a b : App) :
  control a = control b -> flight_inv a -> flight_inv b.
Proof.
  intros H (Hs & Hg & Ht).
  pose proof (timers_wf_control H Ht) as Ht'.
  control_eqs H. unfold flight_inv, single_flight in *.
  repeat match goal with
         | E : ?p a = ?p b |- _ => rewrite <- E; clear E
         end.
  auto.
Qed.

Lemma coordinator_inv_control (a b : App) :
  control a = control b -> coordinator_inv a -> coordinator_inv b.
Proof.
  intros H (Hp & Hf). split.
  - control_eqs H. congruence.
  - exact (flight_inv_control H Hf).
Qed.

Lemma mounted_inv (w h : Z) : coordinator_inv (mounted w h).
Proof.
  unfold coordinator_inv, flight_inv, single_flight, timers_wf; cbn.
  inv_solve.
Qed.

(** A conversion starts only when none is awaited. *)
Lemma convert_flight (loaded : bool) (o : option Z) (st : App) :
  (loaded = true -> gifLoaded st = true) ->
  flight_inv st -> flight_inv (convert loaded o st).
Proof.
  intros Hl I. unfold convert.
  destruct loaded; cbn; [|exact I].
  destruct I as (Hs & Hg & Ht).
  destruct (isUpdating st) eqn:Hu.
  - unfold flight_inv, single_flight in *; cbn. rewrite Hu.
    split; [|split; [auto|exact Ht]].
    destruct Hs as [(_ & ?)|(a & ? & _)]; [congruence|eauto].
  - destruct Hs as [(Hc & _)|(a & _ & Hc)]; [|congruence].
    unfold flight_inv, single_flight, convert_loop; cbn.
    rewrite Hc. cbn. inv_solve.
Qed.

Lemma convert_params (loaded : bool) (o : option Z) (st : App) :
  params (convert loaded o st) = params st /\
  paramsRef (convert loaded o st) = paramsRef st /\
  gifLoaded (convert loaded o st) = gifLoaded st.
Proof. unfold convert, convert_loop. split_matches; auto. Qed.

(** With well-formed timers, cancelling the debounce leaves none armed. *)
Lemma cancel_debounce_spec (st : App) :
  timers_wf st -> cancel_debounce st = set_timeouts [] st.
Proof.
  intros (Hn & Ht & Hd & Hh). unfold cancel_debounce.
  destruct Ht as [Ht|(t & Ht & Hdt)].
  - assert (E : set_timeouts [] st = st)
      by (destruct st; cbn in *; subst; reflexivity).
    rewrite E.
    destruct (debounceTimer st) as [h|]; [|reflexivity].
    destruct (h =? 0); [reflexivity|].
    unfold clearTimeout. rewrite Ht. exact E.
  - rewrite Hdt.
    assert (0 < handle t) by (apply Hh; assumption).
    destruct (handle t =? 0) eqn:E; [lia|].
    unfold clearTimeout. rewrite Ht. cbn.
    rewrite Z.eqb_refl. reflexivity.
Qed.

Lemma handleParamChange_inv (u : Updater) (st : App) :
  coordinator_inv st ->
  coordinator_inv (sync_paramsRef (handleParamChange (gifLoaded st) u st)).
Proof.
  intros (Hp & Hf). unfold handleParamChange.
  set (st1 := set_params _ (set_isInteractive true st)).
  assert (Hf1 : flight_inv st1) by exact Hf.
  assert (Hl1 : gifLoaded st1 = gifLoaded st) by reflexivity.
  clearbody st1.
  pose proof (@convert_flight (gifLoaded st) (Some (currentFrameIdx st1)) st1)
    as Hf2.
  destruct (convert_params (gifLoaded st) (Some (currentFrameIdx st1)) st1)
    as (_ & _ & Hl2).
  set (st2 := convert _ _ st1) in *. clearbody st2.
  assert (Hf2' : flight_inv st2) by (apply Hf2; [intros; congruence|assumption]).
  destruct Hf2' as (Hs & Hg & Ht).
  rewrite (cancel_debounce_spec Ht).
  destruct Ht as (Hn & _ & _ & _).
  unfold coordinator_inv, flight_inv, single_flight, timers_wf,
    sync_paramsRef, setTimeout; cbn.
  split; [reflexivity|]. split; [exact Hs|]. split; [exact Hg|].
  split; [lia|]. split; [right; eexists; split; reflexivity|]. split.
  - intros t [<-|[]]; cbn. split; [reflexivity|congruence].
  - intros h E. injection E as <-. exact Hn.
Qed.

(** What is left to do once a response has been applied, in a state where
    the settled call is no longer awaited. *)
Lemma settle_inv (o : option Z) (st : App) :
  params st = paramsRef st -> timers_wf st -> gifLoaded st = true ->
  isUpdating st = true -> convertAwait st = [] ->
  coordinator_inv
    (if pendingUpdate st then convert_loop o st else set_isUpdating false st).
Proof.
  intros Hp Ht Hl Hu Hc.
  destruct (pendingUpdate st);
    unfold coordinator_inv, flight_inv, single_flight, timers_wf,
      convert_loop in *; cbn;
    rewrite Hc; cbn; inv_solve.
Qed.

Lemma nth_error_singleton {A : Type} (a b : A) (k : nat) :
  nth_error [a] k = Some b -> k = 0%nat /\ b = a.
Proof.
  destruct k as [|[|k]]; cbn; intros H; try discriminate.
  injection H as <-. split; reflexivity.
Qed.

Lemma awaited_conversion (st : App) (k : nat) (a : ConvertArgs) :
  single_flight st -> nth_error (convertAwait st) k = Some a ->
  k = 0%nat /\ convertAwait st = [a] /\ isUpdating st = true.
Proof.
  intros [(Hc & _)|(a0 & Hc & Hu)] H; rewrite Hc in H.
  - destruct k; discriminate.
  - apply nth_error_singleton in H as (-> & ->). auto.
Qed.

Lemma step_inv (e : Event) (st st' : App) :
  coordinator_inv st -> step e st = Some st' -> coordinator_inv st'.
Proof.
  intros I H. destruct e; cbn in H.
  - (* OpenSelected *)
    destruct (loading st); [discriminate|]. injection H as <-. exact I.
  - (* LoadSettled *)
    destruct (loading st); [|discriminate]. injection H as <-.
    destruct r as [n|e]; cbn; [|exact I].
    destruct I as (Hp & Hs & Hg & Ht).
    destruct (gifLoaded st) eqn:El; cbn.
    + unfold coordinator_inv, flight_inv, single_flight, timers_wf in *; cbn.
      inv_solve.
    + unfold effects_on_gifLoaded.
      match goal with
      | |- context [convert true None ?s] =>
          pose proof (@convert_flight true None s) as Hf;
          destruct (convert_params true None s) as (Hp1 & Hp2 & _);
          set (st1 := convert true None s) in *
      end.
      clearbody st1. cbn in Hp1, Hp2.
      assert (I1 : coordinator_inv st1).
      { split; [congruence|]. apply Hf; [reflexivity|].
        unfold flight_inv, single_flight, timers_wf in *; cbn.
        inv_solve. }
      destruct (count (frameMetadata st1) <=? 1); [exact I1|].
      destruct I1 as (Hp' & Hs' & Hg' & Ht').
      unfold coordinator_inv, flight_inv, single_flight, timers_wf in *; cbn.
      inv_solve.
  - (* ParamChange *)
    injection H as <-. apply handleParamChange_inv, I.
  - (* TimeoutFired *)
    destruct (find _ (timeouts st)) as [t|] eqn:Ef; [|discriminate].
    injection H as <-.
    apply find_some in Ef as (Hin & Eh). apply Z.eqb_eq in Eh.
    destruct I as (Hp & Hs & Hg & Ht).
    unfold debounce_callback.
    match goal with
    | |- coordinator_inv (convert ?l ?o ?s) =>
        destruct (convert_params l o s) as (Hp1 & Hp2 & _);
        pose proof (@convert_flight l o s) as Hf
    end.
    cbn in Hp1, Hp2.
    split; [congruence|]. apply Hf.
    + cbn. intros Hc. destruct Ht as (_ & _ & Hd & _).
      apply (Hd t Hin), Hc.
    + rewrite <- Eh. destruct Ht as (Hn & Ht & Hd & Hh).
      destruct Ht as [Ht|(t0 & Ht & Hdt)]; [rewrite Ht in Hin; destruct Hin|].
      rewrite Ht in Hin. destruct Hin as [->|[]].
      unfold flight_inv, single_flight, timers_wf, clearTimeout in *; cbn.
      rewrite Ht; cbn. rewrite Z.eqb_refl; cbn.
      inv_solve.
  - (* ConvertSettled *)
    destruct (nth_error (convertAwait st) k) as [a|] eqn:En; [|discriminate].
    injection H as <-.
    destruct I as (Hp & Hs & Hg & Ht).
    destruct (@awaited_conversion st k a Hs En) as (-> & Hc & Hu).
    assert (Hl : gifLoaded st = true) by (apply Hg; assumption).
    rewrite Hc. unfold remove_nth; cbn.
    destruct r as [response|e].
    + unfold convert_resolved.
      pose proof (apply_response_control true (arg_onlyFrame a)
                    (snd response) (set_convertAwait [] st)) as C.
      apply settle_inv.
      * control_eqs C. cbn in *. congruence.
      * eapply timers_wf_control; [symmetry; exact C|exact Ht].
      * control_eqs C. cbn in *. congruence.
      * control_eqs C. cbn in *. congruence.
      * control_eqs C. cbn in *. congruence.
    + unfold coordinator_inv, flight_inv, single_flight, timers_wf,
        convert_rejected in *; cbn in *.
      inv_solve.
  - (* PreviewSettled *)
    destruct (nth_error (previewAwait st) k); [|discriminate].
    injection H as <-. destruct r; exact I.
  - (* AnimationFrame *)
    destruct (animationFrameId st); [|discriminate]. injection H as <-.
    unfold animate.
    match goal with
    | |- context [if ?c then ?x else st] =>
        assert (I1 : coordinator_inv (if c then x else st));
        [|set (st1 := if c then x else st) in *]
    end.
    { destruct (_ && _); [|exact I].
      eapply coordinator_inv_control;
        [symmetry; apply renderFrame_control|exact I]. }
    clearbody st1. destruct I1 as (Hp & Hs & Hg & Ht).
    unfold coordinator_inv, flight_inv, single_flight, timers_wf in *; cbn.
    inv_solve.
  - (* Resized *)
    injection H as <-.
    eapply coordinator_inv_control;
      [symmetry; apply calculateAndApplyScale_control|exact I].
Qed.

Lemma reachable_inv (st : App) : reachable st -> coordinator_inv st.
Proof.
  induction 1 as [w h|e st st' _ IH H].
  - apply mounted_inv.
  - exact (@step_inv e st st' IH H).
Qed.

Lemma run_reachable (es : list Event) (st st' : App) :
  reachable st -> run es st = Some st' -> reachable st'.
Proof.
  revert st. induction es as [|e es IH]; cbn; intros st R H.
  - injection H as <-. exact R.
  - destruct (step e st) as [st1|] eqn:E; [|discriminate].
    exact (IH st1 (@reachable_step _ e st st1 R E) H).
Qed.

End Invariant.

(** ** Rendering without a buffer or without frames *)

(** C10: for every frame index, [renderFrame] with no buffer installed (no
    override and [asciiBuffer] empty) or with [count = 0] returns before any
    remainder or slice is taken: the whole state is unchanged, so the
    rendered content, [currentFrameIdx], the frame buffer's metadata and
    the calls made stay as they were. *)
Theorem renderFrame_noop {platform : Platform} (loaded : bool) (idx : Z)
  (bufferOverride : option Uint8Array) (st : App) :
  (bufferOverride = None /\ asciiBuffer st = None) \/
  count (frameMetadata st) = 0 ->
  renderFrame loaded idx bufferOverride st = st.
Proof.
  intros [(-> & Hb)|Hc]; unfold renderFrame.
  - rewrite Hb. reflexivity.
  - rewrite Hc. cbn.
    destruct bufferOverride, (asciiBuffer st), (asciiRef st); reflexivity.
Qed.

Lemma renderFrame_noop_witness :
  ((Some two_frames = None /\ asciiBuffer (mounted 800 600) = None) \/
   count (frameMetadata (mounted 800 600)) = 0) /\
  renderFrame (platform := ascii_platform) true 7 (Some two_frames)
    (mounted 800 600) = mounted 800 600.
Proof.
  split.
  - right. by_evaluation.
  - apply renderFrame_noop. right. by_evaluation.
Defined.

(** ** The glyph-grid measurement *)

(** C9: the measurement inside a conversion leaves the [<pre>] with the
    text content and the transform it had before; all it changes in the
    whole state is [rawW] and [rawH], which become the scroll box of the
    probe frame. *)
Theorem measureGlyphGrid_restores {platform : Platform}
  (onlyFrame : option Z) (data : Uint8Array) (st : App) :
  asciiRef (measureGlyphGrid onlyFrame data st) = asciiRef st /\
  measureGlyphGrid onlyFrame data st =
  match asciiRef st with
  | Some _ =>
      let p := probe onlyFrame data st in
      set_frameMetadata
        (set_rawH (scrollHeight p) (set_rawW (scrollWidth p) (frameMetadata st)))
        st
  | None => st
  end.
Proof.
  unfold measureGlyphGrid, probe.
  destruct st as [? ? ? ? ? ? [[text tr]|] ? ? ? ? [c s w h] ? ? ? ? ? ? ? ? ? ? ?];
    cbn; split; reflexivity.
Qed.

(** ** The animation clock while interactive *)

Lemma animate_interactive {platform : Platform} (loaded : bool) (time : Q)
  (st : App) :
  isInteractive st = true ->
  animate loaded time st =
  set_animationFrameId (Some (nextHandle st))
    (set_nextHandle (nextHandle st + 1) st).
Proof. intros H. unfold animate. rewrite H. reflexivity. Qed.

(** C6: while [isInteractive] is set, any sequence of animation frames, at
    any times, can run (each tick registers the next one) and none of them
    changes [currentFrameIdx]; the flag, the time of the last advance, the
    rendered [<pre>] and the frame buffer are untouched as well. *)
Theorem animation_frames_while_interactive {platform : Platform}
  (times : list Q) (st : App) :
  isInteractive st = true -> animationFrameId st <> None ->
  exists st',
    run (map AnimationFrame times) st = Some st' /\
    currentFrameIdx st' = currentFrameIdx st /\
    isInteractive st' = true /\
    lastFrameTime st' = lastFrameTime st /\
    asciiRef st' = asciiRef st /\
    frame_buffer st' = frame_buffer st /\
    animationFrameId st' <> None.
Proof.
  revert st. induction times as [|t times IH]; intros st Hi Ha.
  - exists st. repeat split; auto.
  - cbn. destruct (animationFrameId st) eqn:E; [|contradiction].
    rewrite (animate_interactive true t st Hi).
    destruct (IH (set_animationFrameId (Some (nextHandle st))
                    (set_nextHandle (nextHandle st + 1) st)))
      as (st' & Hr & H1 & H2 & H3 & H4 & H5 & H6);
      [exact Hi|discriminate|].
    exists st'. repeat split; assumption.
Qed.

Lemma animation_frames_while_interactive_witness :
  (isInteractive (after first_edit) = true /\
   animationFrameId (after first_edit) <> None) /\
  exists st',
    run (platform := ascii_platform)
      (map AnimationFrame [16; 250; 1000]%Q) (after first_edit) = Some st' /\
    currentFrameIdx st' = currentFrameIdx (after first_edit) /\
    isInteractive st' = true /\
    lastFrameTime st' = lastFrameTime (after first_edit) /\
    asciiRef st' = asciiRef (after first_edit) /\
    frame_buffer st' = frame_buffer (after first_edit) /\
    animationFrameId st' <> None.
Proof.
  split.
  - split; by_evaluation.
  - apply (@animation_frames_while_interactive ascii_platform).
    + by_evaluation.
    + by_evaluation.
Defined.

(** ** Slicing *)

Lemma Qred_inject_Z (z : Z) : Qred (inject_Z z) = inject_Z z.
Proof.
  unfold Qred, inject_Z.
  generalize (Z.ggcd_gcd z 1) (Z.ggcd_correct_divisors z 1).
  destruct (Z.ggcd z 1) as (g & a & b). cbn [fst].
  rewrite Z.gcd_1_r. intros -> (Ha & Hb).
  assert (b = 1) by lia. assert (a = z) by lia. subst a b. reflexivity.
Qed.

Lemma Qred_eq_inject_Z (q : Q) (z : Z) :
  q == inject_Z z -> Qred q = inject_Z z.
Proof.
  intros H. rewrite (Qred_complete _ _ H). apply Qred_inject_Z.
Qed.

Lemma mul_Z_of_Z (a b : Z) : mul_Z a (of_Z b) = of_Z (a * b).
Proof.
  unfold mul_Z, of_Z. f_equal. apply Qred_eq_inject_Z.
  rewrite inject_Z_mult. reflexivity.
Qed.

Lemma add_of_Z (a b : Z) : Num.add (of_Z a) (of_Z b) = of_Z (a + b).
Proof.
  unfold Num.add, of_Z. f_equal. apply Qred_eq_inject_Z.
  rewrite inject_Z_plus. reflexivity.
Qed.

Lemma eqb_of_Z (a b : Z) : Num.eqb (of_Z a) (of_Z b) = (a =? b).
Proof.
  unfold Num.eqb, of_Z.
  destruct (Qeq_bool (inject_Z a) (inject_Z b)) eqn:E; symmetry.
  - apply Z.eqb_eq, inject_Z_injective, Qeq_bool_iff, E.
  - apply Z.eqb_neq. intros ->.
    rewrite (Qeq_eq_bool _ _ (Qeq_refl _)) in E. discriminate.
Qed.

(** An exact quotient is the integer it denotes. *)
Lemma div_Z_exact (a b : Z) :
  b <> 0 -> (b | a) -> div_Z a b = of_Z (a / b).
Proof.
  intros Hb (c & ->). unfold div_Z, of_Z.
  destruct (b =? 0) eqn:E; [apply Z.eqb_eq in E; contradiction|].
  f_equal. apply Qred_eq_inject_Z.
  rewrite Z.div_mul by assumption.
  rewrite inject_Z_mult. apply Qdiv_mult_l.
  intros H. apply (inject_Z_injective b 0) in H. contradiction.
Qed.

Lemma to_integer_of_Z (z : Z) : to_integer_or_infinity (of_Z z) = Int z.
Proof. cbn. rewrite Z.quot_1_r. reflexivity. Qed.

Lemma subarray_of_Z (buffer : Uint8Array) (a b : Z) :
  subarray buffer (of_Z a) (of_Z b) =
  let len := length_of buffer in
  let beginIndex := relative_index len (Int a) in
  let endIndex := relative_index len (Int b) in
  firstn (Z.to_nat (Z.max (endIndex - beginIndex) 0))
    (skipn (Z.to_nat beginIndex) buffer).
Proof. unfold subarray. rewrite !to_integer_of_Z. reflexivity. Qed.

(** A range inside the buffer is taken as it is. *)
Lemma subarray_inside (buffer : Uint8Array) (a b : Z) :
  0 <= a <= b -> b <= length_of buffer ->
  subarray buffer (of_Z a) (of_Z b) =
  firstn (Z.to_nat (b - a)) (skipn (Z.to_nat a) buffer).
Proof.
  intros Ha Hb. rewrite subarray_of_Z. cbn.
  destruct (a <? 0) eqn:Ea; [lia|]. destruct (b <? 0) eqn:Eb; [lia|].
  rewrite !Z.min_l, Z.max_l by lia. reflexivity.
Qed.

Lemma firstn_whole {A : Type} (l : list A) : firstn (List.length l) l = l.
Proof. apply firstn_all. Qed.

(** C4.  In a buffer of [count > 0] frames of [s > 0] bytes, for every
    frame index (the component passes none below zero: [frame_indices_nonneg]
    holds in every reachable state), the slice is the [s] bytes from
    [(idx mod count) * s], all of them inside the buffer, so that an index
    and its remainder give the same slice, as 7 and 2 do for five frames of
    ten bytes; and a buffer whose length is [size], the single-frame
    layout, is returned whole whatever the index. *)
Theorem sliceFor_frames (count s idx : Z) (buffer : Uint8Array) :
  (0 < count -> 0 < s -> length_of buffer = count * s -> 0 <= idx ->
   sliceFor count (of_Z s) buffer idx =
     firstn (Z.to_nat s) (skipn (Z.to_nat ((idx mod count) * s)) buffer) /\
   length_of (sliceFor count (of_Z s) buffer idx) = s /\
   (idx mod count) * s + s <= length_of buffer /\
   sliceFor count (of_Z s) buffer idx =
     sliceFor count (of_Z s) buffer (idx mod count)) /\
  (length_of buffer = 5 * 10 ->
   sliceFor 5 (of_Z 10) buffer 7 = sliceFor 5 (of_Z 10) buffer 2) /\
  (length_of buffer = s -> sliceFor count (of_Z s) buffer idx = buffer).
Proof.
  assert (chunk : forall c z i b,
            0 < c -> 0 < z -> length_of b = c * z -> 0 <= i ->
            sliceFor c (of_Z z) b i =
            firstn (Z.to_nat z) (skipn (Z.to_nat ((i mod c) * z)) b)).
  { intros c z i b Hc Hz Hl Hi. unfold sliceFor, slice_bounds.
    rewrite eqb_of_Z, (Z.rem_mod_nonneg i c) by lia.
    pose proof (Z.mod_pos_bound i c Hc) as Hm.
    destruct (length_of b =? z) eqn:E.
    - apply Z.eqb_eq in E. assert (c = 1) by nia. subst c.
      rewrite add_of_Z, Z.mod_1_r. cbn [Z.mul Z.add].
      rewrite subarray_inside by lia. rewrite Z.sub_0_r. reflexivity.
    - rewrite mul_Z_of_Z, add_of_Z. rewrite subarray_inside by nia.
      f_equal. f_equal. lia. }
  split; [|split].
  - intros Hc Hs Hl Hi.
    pose proof (Z.mod_pos_bound idx count Hc) as Hm.
    assert (Hin : (idx mod count) * s + s <= length_of buffer) by nia.
    split; [apply chunk; assumption|].
    split; [|split; [exact Hin|]].
    + rewrite chunk by assumption. unfold length_of in *.
      rewrite length_firstn, length_skipn. lia.
    + rewrite (chunk count s (idx mod count)) by (assumption || lia).
      rewrite Z.mod_mod by lia. apply chunk; assumption.
  - intros Hl. rewrite !chunk by lia. reflexivity.
  - intros Hl. unfold sliceFor, slice_bounds.
    rewrite eqb_of_Z, Hl, Z.eqb_refl, add_of_Z. cbn [Z.add].
    rewrite subarray_inside by (unfold length_of in *; lia).
    rewrite Z.sub_0_r. cbn [Z.to_nat skipn].
    rewrite <- Hl. unfold length_of. rewrite Nat2Z.id. apply firstn_whole.
Qed.

Lemma sliceFor_frames_witness :
  ((0 < 5 /\ 0 < 10 /\ length_of five_frames = 5 * 10 /\ 0 <= 7) /\
   sliceFor 5 (of_Z 10) five_frames 7 = bytes 10 "c" /\
   sliceFor 5 (of_Z 10) five_frames 7 = sliceFor 5 (of_Z 10) five_frames 2) /\
  (length_of (bytes 10 "c") = 10 /\
   sliceFor 5 (of_Z 10) (bytes 10 "c") 3 = bytes 10 "c").
Proof.
  assert (H7 : 0 < 5 /\ 0 < 10 /\ length_of five_frames = 5 * 10 /\ 0 <= 7)
    by (repeat split; by_evaluation).
  split; [split; [exact H7|]|split; [by_evaluation|]].
  - destruct H7 as (Hc & Hs & Hl & Hi). split.
    + rewrite (proj1 (proj1 (sliceFor_frames 5 10 7 five_frames)
                        Hc Hs Hl Hi)).
      by_evaluation.
    + exact (proj1 (proj2 (sliceFor_frames 5 10 7 five_frames)) Hl).
  - apply (proj2 (proj2 (sliceFor_frames 5 10 3 (bytes 10 "c")))).
    by_evaluation.
Defined.

(** ** Installing a bulk response *)

Lemma after_reachable (es : list Event) :
  run (platform := ascii_platform) es (mounted 800 600) <> None ->
  reachable (platform := ascii_platform) (after es).
Proof.
  intros H. unfold after.
  destruct (run es (mounted 800 600)) as [st|] eqn:E; [|contradiction].
  exact (@run_reachable ascii_platform es _ st
           (reachable_mounted 800 600) E).
Qed.

(** C2, as the code has it.  Installing a bulk response never fails: the
    buffer is replaced by the bytes, [count] and [error] are left as they
    are, and [size] becomes the quotient [data.length / count], which is the
    integer [data.length / count] when [count > 0] divides the length (and
    is a fraction otherwise). *)
Theorem install_layout {platform : Platform} (loaded : bool)
  (data : Uint8Array) (st : App) :
  let st' := install loaded data st in
  asciiBuffer st' = Some data /\
  count (frameMetadata st') = count (frameMetadata st) /\
  size (frameMetadata st') =
    div_Z (length_of data) (count (frameMetadata st)) /\
  error st' = error st /\
  (0 < count (frameMetadata st) ->
   (count (frameMetadata st) | length_of data) ->
   size (frameMetadata st') =
     of_Z (length_of data / count (frameMetadata st))).
Proof.
  cbv zeta. unfold install.
  match goal with
  | |- context [renderFrame loaded ?i None ?s] =>
      pose proof (renderFrame_frame_buffer loaded i None s) as F;
      pose proof (renderFrame_control loaded i None s) as C;
      set (st' := renderFrame loaded i None s) in *
  end.
  clearbody st'. unfold frame_buffer in F. cbn in F.
  injection F as Fb Fm. control_eqs C. cbn in *.
  rewrite Fb, Fm. cbn.
  repeat split; try assumption; try reflexivity.
  intros Hc Hd. apply div_Z_exact; [lia|assumption].
Qed.

Lemma install_layout_witness :
  (0 < count (frameMetadata (after [OpenSelected; LoadSettled (Resolved 2)]))
   /\ (count (frameMetadata (after [OpenSelected; LoadSettled (Resolved 2)]))
       | length_of two_frames)) /\
  size (frameMetadata
          (install (platform := ascii_platform) true two_frames
             (after [OpenSelected; LoadSettled (Resolved 2)]))) = of_Z 10.
Proof.
  assert (H : 0 < count (frameMetadata
                           (after [OpenSelected; LoadSettled (Resolved 2)]))
              /\ (count (frameMetadata
                           (after [OpenSelected; LoadSettled (Resolved 2)]))
                  | length_of two_frames)).
  { split; [by_evaluation|]. exists 10. by_evaluation. }
  split; [exact H|].
  destruct H as (Hc & Hd).
  exact (proj2 (proj2 (proj2 (proj2
           (@install_layout ascii_platform true two_frames
              (after [OpenSelected; LoadSettled (Resolved 2)])))))
           Hc Hd).
Defined.

(** C2 as stated fails for ten bytes and three frames: the response is
    installed, no error is recorded, and [size] is the fraction 10/3; the
    frame shown is the first three bytes. *)
Lemma install_indivisible_succeeds :
  run (platform := ascii_platform) indivisible_session (mounted 800 600)
    <> None /\
  error (after indivisible_session) = EmptyString /\
  asciiBuffer (after indivisible_session) = Some (bytes 10 "a") /\
  count (frameMetadata (after indivisible_session)) = 3 /\
  size (frameMetadata (after indivisible_session)) = Fin (10 # 3) /\
  option_map textContent (asciiRef (after indivisible_session)) =
    Some "aaa"%string.
Proof. repeat split; by_evaluation. Qed.

(** ** Previews *)

Lemma nth_error_remove_nth_before {A : Type} (l : list A) (i j : nat) :
  (i < j)%nat -> (j < List.length l)%nat ->
  nth_error (remove_nth j l) i = nth_error l i.
Proof.
  intros Hij Hj. unfold remove_nth.
  rewrite nth_error_app1 by (rewrite length_firstn; lia).
  rewrite nth_error_firstn.
  destruct (Nat.ltb_spec i j); [reflexivity|lia].
Qed.

Lemma nth_error_remove_nth_after {A : Type} (l : list A) (i j : nat) :
  (i < j)%nat -> (j < List.length l)%nat ->
  nth_error (remove_nth i l) (j - 1) = nth_error l j.
Proof.
  intros Hij Hj. unfold remove_nth.
  rewrite nth_error_app2 by (rewrite length_firstn; lia).
  rewrite nth_error_skipn, length_firstn. f_equal. lia.
Qed.

Lemma updatePreview_settled_resolved {platform : Platform} (st : App)
  (k : nat) (a : PreviewArgs) (b64 : string) :
  nth_error (previewAwait st) k = Some a ->
  step (PreviewSettled k (Resolved b64)) st =
    Some (set_adjustedPreviewUrl b64
            (set_previewAwait (remove_nth k (previewAwait st)) st)).
Proof. intros H. cbn. rewrite H. reflexivity. Qed.

(** C3, as the code has it.  A preview that resolves is applied whatever
    parameters its request carried and whatever the parameters are now:
    the image becomes the response, and only the list of awaited previews
    changes besides.  So of two awaited previews the one that resolves
    last decides the image, in either order: when the older request (the
    one earlier in the list) resolves after the newer one, its image
    replaces the newer one's. *)
Theorem preview_last_arrival_wins {platform : Platform} (st : App)
  (i j : nat) (older newer : PreviewArgs) (older_b64 newer_b64 : string) :
  (i < j)%nat ->
  nth_error (previewAwait st) i = Some older ->
  nth_error (previewAwait st) j = Some newer ->
  (exists st',
     run [PreviewSettled j (Resolved newer_b64);
          PreviewSettled i (Resolved older_b64)] st = Some st' /\
     adjustedPreviewUrl st' = older_b64 /\
     control st' =
       control (set_adjustedPreviewUrl older_b64 st) /\
     frame_buffer st' = frame_buffer st /\
     asciiRef st' = asciiRef st) /\
  (exists st',
     run [PreviewSettled i (Resolved older_b64);
          PreviewSettled (j - 1) (Resolved newer_b64)] st = Some st' /\
     adjustedPreviewUrl st' = newer_b64 /\
     control st' =
       control (set_adjustedPreviewUrl newer_b64 st) /\
     frame_buffer st' = frame_buffer st /\
     asciiRef st' = asciiRef st).
Proof.
  intros Hij Hi Hj.
  assert (Hlen : (j < List.length (previewAwait st))%nat)
    by (apply nth_error_Some; congruence).
  split; cbn [run].
  - rewrite (updatePreview_settled_resolved st j newer_b64 Hj).
    erewrite updatePreview_settled_resolved
      by (cbn; rewrite nth_error_remove_nth_before by assumption; exact Hi).
    eexists. split; [reflexivity|]. repeat split.
  - rewrite (updatePreview_settled_resolved st i older_b64 Hi).
    erewrite updatePreview_settled_resolved
      by (cbn; rewrite nth_error_remove_nth_after by assumption; exact Hj).
    eexists. split; [reflexivity|]. repeat split.
Qed.

Lemma preview_last_arrival_wins_witness :
  ((0 < 1)%nat /\
   nth_error (previewAwait (after two_previews_pending)) 0 =
     Some {| arg_preview_brightness := 10;
             arg_preview_contrast := 1;
             arg_frameIndex := 0 |} /\
   nth_error (previewAwait (after two_previews_pending)) 1 =
     Some {| arg_preview_brightness := 20;
             arg_preview_contrast := 1;
             arg_frameIndex := 0 |} /\
   brightness (paramsRef (after two_previews_pending)) = 20) /\
  exists st',
    run (platform := ascii_platform)
      [PreviewSettled 1 (Resolved "preview b=20"%string);
       PreviewSettled 0 (Resolved "preview b=10"%string)]
      (after two_previews_pending) = Some st' /\
    adjustedPreviewUrl st' = "preview b=10"%string.
Proof.
  assert (H0 : nth_error (previewAwait (after two_previews_pending)) 0 =
               Some {| arg_preview_brightness := 10;
                       arg_preview_contrast := 1;
                       arg_frameIndex := 0 |}) by by_evaluation.
  assert (H1 : nth_error (previewAwait (after two_previews_pending)) 1 =
               Some {| arg_preview_brightness := 20;
                       arg_preview_contrast := 1;
                       arg_frameIndex := 0 |}) by by_evaluation.
  split.
  - split; [lia|]. split; [exact H0|]. split; [exact H1|by_evaluation].
  - destruct (proj1 (@preview_last_arrival_wins ascii_platform
                       (after two_previews_pending) 0 1 _ _
                       "preview b=10" "preview b=20"
                       (Nat.lt_0_succ 0) H0 H1))
      as (st' & Hr & Hu & _).
    exists st'. split; assumption.
Defined.

(** C3 as stated fails: with brightness 20 current, the response to the
    request issued at brightness 20 is applied, and the response to the
    older request issued at brightness 10, arriving after it, replaces
    it. *)
Lemma stale_preview_overwrites :
  run (platform := ascii_platform) stale_preview_last (mounted 800 600)
    <> None /\
  previewAwait (after two_previews_pending) =
    [{| arg_preview_brightness := 10;
        arg_preview_contrast := 1;
        arg_frameIndex := 0 |};
     {| arg_preview_brightness := 20;
        arg_preview_contrast := 1;
        arg_frameIndex := 0 |}] /\
  brightness (paramsRef (after stale_preview_last)) = 20 /\
  adjustedPreviewUrl (after stale_preview_last) = "preview b=10"%string.
Proof. repeat split; by_evaluation. Qed.

(** ** Failing backend calls *)

(** C8, as the code has it.  A conversion that rejects is caught: its
    message becomes [error], the frame buffer, the playback state and the
    rendered frame are unchanged, and [isUpdating] is cleared, so that the
    next [convert] sends a call.  A preview that rejects is caught as well
    and changes none of these, but it is only written to the console:
    [error] stays what it was. *)
Theorem backend_failures {platform : Platform} (st : App) (k : nat)
  (e : string) :
  (forall a, nth_error (convertAwait st) k = Some a ->
     exists st',
       step (ConvertSettled k (Rejected e)) st = Some st' /\
       error st' = e /\
       frame_buffer st' = frame_buffer st /\
       playback st' = playback st /\
       asciiRef st' = asciiRef st /\
       isUpdating st' = false /\
       forall onlyFrame,
         conversions (invoked (convert true onlyFrame st')) =
         conversions (invoked st')
           ++ [convert_args (paramsRef st') onlyFrame]) /\
  (forall a, nth_error (previewAwait st) k = Some a ->
     exists st',
       step (PreviewSettled k (Rejected e)) st = Some st' /\
       error st' = error st /\
       console st' = console st ++ [("Preview error: " ++ e)%string] /\
       frame_buffer st' = frame_buffer st /\
       playback st' = playback st /\
       asciiRef st' = asciiRef st /\
       adjustedPreviewUrl st' = adjustedPreviewUrl st /\
       isUpdating st' = isUpdating st).
Proof.
  split; intros a H; cbn; rewrite H; eexists; (split; [reflexivity|]).
  - repeat split. intros onlyFrame. unfold convert, convert_loop; cbn.
    rewrite conversions_app. reflexivity.
  - repeat split.
Qed.

Lemma backend_failures_witness :
  (nth_error (convertAwait (after first_edit)) 0 =
     Some (convert_args {| width := 100; brightness := 0; contrast := 1 |}
             (Some 0)) /\
   exists st',
     step (platform := ascii_platform)
       (ConvertSettled 0 (Rejected "out of memory")) (after first_edit)
       = Some st' /\
     error st' = "out of memory"%string /\ isUpdating st' = false) /\
  (nth_error (previewAwait (after first_edit)) 0 =
     Some {| arg_preview_brightness := 0;
             arg_preview_contrast := 1;
             arg_frameIndex := 0 |} /\
   exists st',
     step (platform := ascii_platform)
       (PreviewSettled 0 (Rejected "out of memory")) (after first_edit)
       = Some st' /\
     error st' = error (after first_edit)).
Proof.
  assert (Hc : nth_error (convertAwait (after first_edit)) 0 =
               Some (convert_args
                       {| width := 100; brightness := 0; contrast := 1 |}
                       (Some 0))) by by_evaluation.
  assert (Hp : nth_error (previewAwait (after first_edit)) 0 =
               Some {| arg_preview_brightness := 0;
                       arg_preview_contrast := 1;
                       arg_frameIndex := 0 |}) by by_evaluation.
  split; (split; [assumption|]).
  - destruct (proj1 (@backend_failures ascii_platform (after first_edit) 0
                       "out of memory") _ Hc)
      as (st' & Hs & He & _ & _ & _ & Hu & _).
    exists st'. auto.
  - destruct (proj2 (@backend_failures ascii_platform (after first_edit) 0
                       "out of memory") _ Hp)
      as (st' & Hs & He & _).
    exists st'. auto.
Defined.

(** C8 as stated fails for previews: the rejection of the session's first
    preview leaves [error] empty; the message only reaches the console. *)
Lemma preview_failure_not_recorded :
  run (platform := ascii_platform) preview_rejected (mounted 800 600)
    <> None /\
  error (after preview_rejected) = EmptyString /\
  error (after preview_rejected) <> "decode failed"%string /\
  console (after preview_rejected) = ["Preview error: decode failed"%string].
Proof. repeat split; by_evaluation. Qed.

(** ** Parameter edits and the debounce *)

Lemma handleParamChange_spec {platform : Platform} (st : App) (u : Updater) :
  flight_inv st ->
  let st1 := sync_paramsRef (handleParamChange (gifLoaded st) u st) in
  isInteractive st1 = true /\
  params st1 = apply_updater u (params st) /\
  paramsRef st1 = params st1 /\
  timeouts st1 = [{| handle := nextHandle st; delay := 150;
                     closure_gifLoaded := gifLoaded st |}] /\
  debounceTimer st1 = Some (nextHandle st) /\
  convertAwait st1 = convertAwait (convert (gifLoaded st)
                                     (Some (currentFrameIdx st)) st) /\
  isUpdating st1 = isUpdating (convert (gifLoaded st)
                                 (Some (currentFrameIdx st)) st) /\
  pendingUpdate st1 = pendingUpdate (convert (gifLoaded st)
                                       (Some (currentFrameIdx st)) st) /\
  invoked st1 = invoked (convert (gifLoaded st)
                           (Some (currentFrameIdx st)) st).
Proof.
  intros (Hs & Hg & Ht). cbv zeta. unfold handleParamChange.
  set (st0 := set_params _ (set_isInteractive true st)).
  assert (Ht2 : timers_wf (convert (gifLoaded st)
                             (Some (currentFrameIdx st0)) st0)).
  { unfold convert, convert_loop. subst st0. cbn.
    split_matches; exact Ht. }
  rewrite (cancel_debounce_spec Ht2).
  subst st0. unfold convert, convert_loop, sync_paramsRef, setTimeout. cbn.
  split_matches; cbn; repeat split; reflexivity.
Qed.

(** X19: what an edit and its debounce timeout do, in every reachable
    state.  An edit sets [isInteractive], updates the parameters, calls
    [convert] for the displayed frame, and replaces whatever debounce
    timeout was armed by one of 150 ms.  When a source is loaded and no
    conversion is awaited the single-frame conversion is sent at once, with
    the parameters [paramsRef] held before the edit (the effect that copies
    the new ones runs after the handler); when one is awaited nothing is
    sent and [pendingUpdate] is set.  When an armed timeout fires,
    [isInteractive] is cleared, and one bulk conversion is sent if the
    source was loaded at the edit and no conversion is awaited. *)
Theorem edit_then_debounce {platform : Platform} (st : App) (u : Updater) :
  reachable st ->
  (exists st1,
     step (ParamChange u) st = Some st1 /\
     isInteractive st1 = true /\
     params st1 = apply_updater u (params st) /\
     paramsRef st1 = params st1 /\
     timeouts st1 = [{| handle := nextHandle st; delay := 150;
                        closure_gifLoaded := gifLoaded st |}] /\
     debounceTimer st1 = Some (nextHandle st) /\
     (gifLoaded st = true -> isUpdating st = false ->
      conversions (invoked st1) =
      conversions (invoked st)
        ++ [convert_args (paramsRef st) (Some (currentFrameIdx st))]) /\
     (isUpdating st = true ->
      conversions (invoked st1) = conversions (invoked st) /\
      pendingUpdate st1 = true)) /\
  (forall t, In t (timeouts st) ->
     exists st2,
       step (TimeoutFired (handle t)) st = Some st2 /\
       delay t = 150 /\
       isInteractive st2 = false /\
       timeouts st2 = [] /\
       (closure_gifLoaded t = true -> isUpdating st = false ->
        conversions (invoked st2) =
        conversions (invoked st) ++ [convert_args (paramsRef st) None])).
Proof.
  intros R. destruct (reachable_inv R) as (Hp & Hf). split.
  - eexists. split; [reflexivity|].
    destruct (@handleParamChange_spec _ st u Hf)
      as (H1 & H2 & H3 & H4 & H5 & H6 & H7 & H8 & H9).
    repeat (split; [assumption|]). rewrite H8, H9. split.
    + intros Hl Hu. unfold convert, convert_loop. rewrite Hl, Hu. cbn.
      rewrite conversions_app. reflexivity.
    + intros Hu. destruct Hf as (_ & Hg & _).
      unfold convert. rewrite (Hg Hu), Hu. cbn. split; reflexivity.
  - intros t Hin. destruct Hf as (Hs & Hg & Hn & Ht & Hd & Hh).
    destruct Ht as [Ht|(t0 & Ht & Hdt)]; [rewrite Ht in Hin; destruct Hin|].
    pose proof Hin as Hin'. rewrite Ht in Hin'.
    destruct Hin' as [->|[]].
    destruct (Hd t Hin) as (Hdelay & Hl).
    cbn. rewrite Ht. cbn. rewrite Z.eqb_refl.
    eexists. split; [reflexivity|]. split; [exact Hdelay|].
    unfold debounce_callback, clearTimeout. rewrite Ht. cbn.
    rewrite Z.eqb_refl. cbn.
    unfold convert, convert_loop.
    split; [split_matches; reflexivity|].
    split; [split_matches; reflexivity|].
    intros Hc Hu. rewrite Hc. cbn. rewrite Hu. cbn.
    rewrite conversions_app. reflexivity.
Qed.

Lemma edit_then_debounce_witness :
  reachable (platform := ascii_platform) (after edit_settled) /\
  (exists st1,
     step (platform := ascii_platform) (ParamChange (setContrast 2))
       (after edit_settled) = Some st1 /\
     isInteractive st1 = true /\
     conversions (invoked st1) =
     conversions (invoked (after edit_settled))
       ++ [convert_args {| width := 100; brightness := 10; contrast := 1 |}
             (Some 0)]) /\
  (exists st2,
     step (platform := ascii_platform) (TimeoutFired 2)
       (after edit_settled) = Some st2 /\
     isInteractive st2 = false /\
     conversions (invoked st2) =
     conversions (invoked (after edit_settled))
       ++ [convert_args {| width := 100; brightness := 10; contrast := 1 |}
             None]).
Proof.
  assert (R : reachable (platform := ascii_platform) (after edit_settled))
    by (apply after_reachable; by_evaluation).
  split; [exact R|].
  assert (Hl : gifLoaded (after edit_settled) = true) by by_evaluation.
  assert (Hu : isUpdating (after edit_settled) = false) by by_evaluation.
  assert (Ht : In {| handle := 2; delay := 150; closure_gifLoaded := true |}
                 (timeouts (after edit_settled)))
    by (vm_compute; left; reflexivity).
  destruct (@edit_then_debounce ascii_platform (after edit_settled)
              (setContrast 2) R) as (HA & HB).
  split.
  - destruct HA as (st1 & Hs & Hi & _ & _ & _ & _ & Hc & _).
    exists st1. repeat split; try assumption.
    rewrite (Hc Hl Hu). by_evaluation.
  - destruct (HB _ Ht) as (st2 & Hs & _ & Hi & _ & Hc).
    exists st2. repeat split; try assumption.
    rewrite (Hc eq_refl Hu). by_evaluation.
Defined.

(** C7 fails in the code when the timeout fires while the single-frame
    conversion of the edit is still awaited.  The edit does what the claim
    says: [isInteractive] is set, the conversion of the displayed frame is
    sent and the timeout of 150 ms is armed.  The timeout's [convert()]
    then finds [isUpdating] set: [isInteractive] is cleared, but the call
    only sets [pendingUpdate], and the loop that is running replays its
    own single-frame call.  No bulk conversion is sent, then or later: the
    session ends idle with no timeout armed, the one bulk conversion in its
    history is the one made on loading, and the buffer still holds the
    frames of the old brightness while the sliders show the new one. *)
Theorem debounce_bulk_conversion_lost :
  let on_load := {| width := 100; brightness := 0; contrast := 1 |} in
  let edited := {| width := 100; brightness := 10; contrast := 1 |} in
  let is_bulk (a : ConvertArgs) :=
    match arg_onlyFrame a with None => true | Some _ => false end in
  let fired := after (first_edit ++ [TimeoutFired 2]) in
  run (platform := ascii_platform) fired_while_in_flight (mounted 800 600)
    <> None /\
  (isInteractive (after first_edit) = true /\
   params (after first_edit) = edited /\
   convertAwait (after first_edit) = [convert_args on_load (Some 0)] /\
   timeouts (after first_edit) =
     [{| handle := 2; delay := 150; closure_gifLoaded := true |}]) /\
  (isInteractive fired = false /\
   timeouts fired = [] /\
   conversions (invoked fired) = conversions (invoked (after first_edit)) /\
   convertAwait fired = [convert_args on_load (Some 0)] /\
   pendingUpdate fired = true) /\
  (isInteractive (after fired_while_in_flight) = false /\
   timeouts (after fired_while_in_flight) = [] /\
   isUpdating (after fired_while_in_flight) = false /\
   pendingUpdate (after fired_while_in_flight) = false /\
   convertAwait (after fired_while_in_flight) = [] /\
   conversions (invoked (after fired_while_in_flight)) =
     [convert_args on_load None;
      convert_args on_load (Some 0);
      convert_args edited (Some 0)] /\
   filter is_bulk (conversions (invoked (after fired_while_in_flight))) =
     [convert_args on_load None] /\
   params (after fired_while_in_flight) = edited /\
   asciiBuffer (after fired_while_in_flight) = Some two_frames).
Proof.
  cbv zeta.
  repeat match goal with |- _ /\ _ => split end; by_evaluation.
Qed.

(** ** Single flight and coalescing *)

(** The loop after a resolved call, in a state where that call is no longer
    awaited: with [pendingUpdate] set it sends one call with the current
    [paramsRef] and the same [onlyFrame]; otherwise it stops. *)
Lemma convert_resolved_spec {platform : Platform} (o : option Z)
  (response : Z * Uint8Array) (st : App) :
  let st' := convert_resolved true o response st in
  (pendingUpdate st = true ->
   convertAwait st' = convertAwait st ++ [convert_args (paramsRef st) o] /\
   conversions (invoked st') =
     conversions (invoked st) ++ [convert_args (paramsRef st) o] /\
   pendingUpdate st' = false /\
   isUpdating st' = isUpdating st) /\
  (pendingUpdate st = false ->
   convertAwait st' = convertAwait st /\
   conversions (invoked st') = conversions (invoked st) /\
   isUpdating st' = false).
Proof.
  cbv zeta. unfold convert_resolved.
  pose proof (apply_response_control true o (snd response) st) as C.
  set (st2 := apply_response true o (snd response) st) in *.
  clearbody st2. control_eqs C.
  split; intros Hp;
    match goal with
    | E : pendingUpdate st2 = pendingUpdate st |- _ => rewrite E, Hp
    end;
    unfold convert_loop, convert_args; cbn;
    rewrite ?conversions_app; cbn;
    repeat split; congruence.
Qed.

(** A burst of edits while a conversion is awaited sends nothing: each
    edit only sets [pendingUpdate] and moves the parameters on. *)
Lemma burst_while_in_flight {platform : Platform} (us : list Updater) :
  forall st, coordinator_inv st -> isUpdating st = true ->
  exists st1,
    run (map ParamChange us) st = Some st1 /\
    coordinator_inv st1 /\
    isUpdating st1 = true /\
    convertAwait st1 = convertAwait st /\
    conversions (invoked st1) = conversions (invoked st) /\
    params st1 = fold_left (fun p u => apply_updater u p) us (params st) /\
    (us <> [] -> pendingUpdate st1 = true).
Proof.
  induction us as [|u us IH]; intros st I Hu.
  - exists st. split; [reflexivity|]. split; [exact I|].
    repeat split; auto.
  - cbn [map run].
    assert (E : step (ParamChange u) st =
                Some (sync_paramsRef (handleParamChange (gifLoaded st) u st)))
      by reflexivity.
    rewrite E.
    pose proof (@step_inv _ _ _ _ I E) as I1.
    destruct I as (Hp & Hf).
    destruct (@handleParamChange_spec _ st u Hf)
      as (_ & H2 & _ & _ & _ & H6 & H7 & H8 & H9).
    assert (Hl : gifLoaded st = true) by (apply Hf; assumption).
    assert (Hc : convert (gifLoaded st) (Some (currentFrameIdx st)) st =
                 set_pendingUpdate true st)
      by (unfold convert; rewrite Hl, Hu; reflexivity).
    set (st1 := sync_paramsRef _) in *. clearbody st1.
    rewrite Hc in H6, H7, H8, H9. cbn in H6, H7, H8, H9.
    destruct (IH st1 I1) as (st2 & Hr & I2 & Hu2 & Hc2 & Hv2 & Hq2 & Hn2);
      [congruence|].
    exists st2. split; [exact Hr|]. split; [exact I2|].
    split; [exact Hu2|]. split; [congruence|]. split; [congruence|]. split.
    + cbn [fold_left]. congruence.
    + intros _. destruct us as [|u' us'].
      * cbn in Hr. injection Hr as <-. congruence.
      * apply Hn2. discriminate.
Qed.

(** C1.  In every reachable state at most one conversion is awaited, and
    one is exactly when [isUpdating] is set; the source is loaded then, and
    a [convert] called in that state only sets [pendingUpdate].  When the
    awaited call resolves with
    [pendingUpdate] set, exactly one call is sent, with the parameters
    [paramsRef] holds at that moment, and with it unset the loop ends and
    [isUpdating] is cleared.  So any non-empty burst of edits made while a
    call is awaited sends nothing by itself, and when that call resolves
    exactly one call follows, carrying the parameters as the last edit left
    them. *)
Theorem single_flight_coalescing {platform : Platform} (st : App) :
  reachable st ->
  ((List.length (convertAwait st) <= 1)%nat /\
   (isUpdating st = true <-> List.length (convertAwait st) = 1%nat)) /\
  (isUpdating st = true ->
   gifLoaded st = true /\
   forall onlyFrame,
     convert (gifLoaded st) onlyFrame st = set_pendingUpdate true st) /\
  (forall a response, convertAwait st = [a] ->
     exists st',
       step (ConvertSettled 0 (Resolved response)) st = Some st' /\
       (pendingUpdate st = true ->
        convertAwait st' = [convert_args (paramsRef st) (arg_onlyFrame a)] /\
        conversions (invoked st') =
          conversions (invoked st)
            ++ [convert_args (paramsRef st) (arg_onlyFrame a)] /\
        pendingUpdate st' = false /\
        isUpdating st' = true) /\
       (pendingUpdate st = false ->
        convertAwait st' = [] /\
        conversions (invoked st') = conversions (invoked st) /\
        isUpdating st' = false)) /\
  (forall a us response, convertAwait st = [a] -> us <> [] ->
     exists st1 st2,
       run (map ParamChange us) st = Some st1 /\
       conversions (invoked st1) = conversions (invoked st) /\
       convertAwait st1 = [a] /\
       params st1 = fold_left (fun p u => apply_updater u p) us (params st) /\
       step (ConvertSettled 0 (Resolved response)) st1 = Some st2 /\
       conversions (invoked st2) =
         conversions (invoked st)
           ++ [convert_args (params st1) (arg_onlyFrame a)] /\
       convertAwait st2 = [convert_args (params st1) (arg_onlyFrame a)]).
Proof.
  intros R. pose proof (reachable_inv R) as I.
  assert (Hsettle : forall s a response,
             coordinator_inv s -> convertAwait s = [a] ->
             exists s',
               step (ConvertSettled 0 (Resolved response)) s = Some s' /\
               (pendingUpdate s = true ->
                convertAwait s' =
                  [convert_args (paramsRef s) (arg_onlyFrame a)] /\
                conversions (invoked s') =
                  conversions (invoked s)
                    ++ [convert_args (paramsRef s) (arg_onlyFrame a)] /\
                pendingUpdate s' = false /\
                isUpdating s' = true) /\
               (pendingUpdate s = false ->
                convertAwait s' = [] /\
                conversions (invoked s') = conversions (invoked s) /\
                isUpdating s' = false)).
  { intros s a response (_ & Hs & _) Ha.
    assert (Hu : isUpdating s = true).
    { destruct Hs as [(Hc & _)|(a0 & _ & Hu)]; [congruence|exact Hu]. }
    cbn. rewrite Ha. cbn. eexists. split; [reflexivity|].
    destruct (convert_resolved_spec (arg_onlyFrame a) response
                (set_convertAwait (remove_nth 0 [a]) s)) as (H1 & H2).
    cbn in H1, H2. rewrite Hu in H1. exact (conj H1 H2). }
  destruct I as (Hp & Hs & Hg & Ht).
  split; [|split; [|split]].
  - destruct Hs as [(Hc & Hu)|(a & Hc & Hu)]; rewrite Hc, Hu; cbn.
    + split; [lia|]. split; discriminate.
    + split; [lia|]. split; reflexivity.
  - intros Hu. split; [exact (Hg Hu)|].
    intros onlyFrame. unfold convert. rewrite (Hg Hu), Hu. reflexivity.
  - intros a response Ha.
    exact (Hsettle st a response (conj Hp (conj Hs (conj Hg Ht))) Ha).
  - intros a us response Ha Hus.
    assert (Hu : isUpdating st = true).
    { destruct Hs as [(Hc & _)|(a0 & _ & Hu)]; [congruence|exact Hu]. }
    destruct (burst_while_in_flight us (conj Hp (conj Hs (conj Hg Ht))) Hu)
      as (st1 & Hr & I1 & Hu1 & Hc1 & Hv1 & Hq1 & Hn1).
    rewrite Ha in Hc1.
    destruct (Hsettle st1 a response I1 Hc1) as (st2 & Hst & Hpend & _).
    destruct (Hpend (Hn1 Hus)) as (Hc2 & Hv2 & _).
    destruct I1 as (Hp1 & _).
    exists st1, st2. rewrite Hp1.
    repeat split; try assumption; congruence.
Qed.

Lemma single_flight_coalescing_witness :
  reachable (platform := ascii_platform) (after loading_done) /\
  (List.length (convertAwait (after loading_done)) <= 1)%nat /\
  exists st1 st2,
    run (platform := ascii_platform)
      (map ParamChange [setBrightness 10; setBrightness 20; setContrast 2])
      (after loading_done) = Some st1 /\
    step (platform := ascii_platform)
      (ConvertSettled 0 (Resolved (2, two_frames))) st1 = Some st2 /\
    conversions (invoked st2) =
      [convert_args {| width := 100; brightness := 0; contrast := 1 |} None;
       convert_args {| width := 100; brightness := 20; contrast := 2 |}
         None].
Proof.
  assert (R : reachable (platform := ascii_platform) (after loading_done))
    by (apply after_reachable; by_evaluation).
  split; [exact R|].
  assert (Ha : convertAwait (after loading_done) =
               [convert_args
                  {| width := 100; brightness := 0; contrast := 1 |} None])
    by by_evaluation.
  destruct (@single_flight_coalescing ascii_platform (after loading_done) R)
    as ((Hlen & _) & _ & _ & Hburst).
  split; [exact Hlen|].
  destruct (Hburst _ [setBrightness 10; setBrightness 20; setContrast 2]
              (2, two_frames) Ha)
    as (st1 & st2 & Hr & _ & _ & Hq & Hs & Hv & _); [discriminate|].
  exists st1, st2. repeat split; try assumption.
  rewrite Hv, Hq. by_evaluation.
Defined.

(** ** Slices and the buffer's bounds *)

(** C5 does not hold of the code.  After [wider_frame] the buffer is still
    the two frames of ten bytes of the last bulk conversion, while [size]
    is 15, the length of the single frame converted since.  For the frame
    the animation asks for next, [renderFrame] computes the range
    [[15, 30)] in that buffer of 20 bytes: [start + size] exceeds the
    buffer's length.  [subarray] clamps the range, and the frame shown is
    five bytes of the old second frame. *)
Theorem slice_exceeds_buffer_after_single_frame :
  run (platform := ascii_platform) wider_frame (mounted 800 600) <> None /\
  reachable (platform := ascii_platform) (after wider_frame) /\
  asciiBuffer (after wider_frame) = Some two_frames /\
  length_of two_frames = 20 /\
  count (frameMetadata (after wider_frame)) = 2 /\
  size (frameMetadata (after wider_frame)) = of_Z 15 /\
  isInteractive (after wider_frame) = false /\
  option_map
    (fun buffer =>
       slice_bounds (count (frameMetadata (after wider_frame)))
         (size (frameMetadata (after wider_frame))) buffer
         (currentFrameIdx (after wider_frame) + 1))
    (asciiBuffer (after wider_frame)) = Some (of_Z 15, of_Z 30) /\
  length_of two_frames < 30 /\
  option_map textContent
    (asciiRef (after (wider_frame ++ [AnimationFrame 1000]))) =
    Some "bbbbb"%string.
Proof.
  split; [by_evaluation|].
  split; [apply after_reachable; by_evaluation|].
  repeat split; by_evaluation.
Qed.

(** * Further properties of the component *)

(** ** Frame indices *)

Lemma control_convertAwait (a b : App) :
  control a = control b -> convertAwait a = convertAwait b.
Proof. intros H. control_eqs H. assumption. Qed.

Lemma control_playback_flags (a b : App) :
  control a = control b ->
  isInteractive a = isInteractive b /\
  lastFrameTime a = lastFrameTime b /\
  animationFrameId a = animationFrameId b /\
  nextHandle a = nextHandle b.
Proof. intros H. control_eqs H. auto. Qed.

Lemma control_gifLoaded (a b : App) :
  control a = control b -> gifLoaded a = gifLoaded b.
Proof. intros H. control_eqs H. assumption. Qed.

Section FrameIndices.

Context {platform : Platform}.

Lemma renderFrame_currentFrameIdx (loaded : bool) (idx : Z)
  (o : option Uint8Array) (st : App) :
  currentFrameIdx (renderFrame loaded idx o st) = currentFrameIdx st \/
  (count (frameMetadata st) <> 0 /\
   currentFrameIdx (renderFrame loaded idx o st) =
   Z.rem idx (count (frameMetadata st))).
Proof.
  unfold renderFrame.
  destruct (match o with Some b => Some b | None => asciiBuffer st end);
    [|left; reflexivity].
  destruct (asciiRef st); [|left; reflexivity].
  destruct (count (frameMetadata st) =? 0) eqn:E; [left; reflexivity|].
  right. split; [apply Z.eqb_neq, E|].
  unfold updatePreview, calculateAndApplyScale. cbn.
  split_matches; reflexivity.
Qed.

Lemma renderFrame_indices (loaded : bool) (idx : Z) (o : option Uint8Array)
  (st : App) :
  0 <= idx -> frame_indices_nonneg st ->
  frame_indices_nonneg (renderFrame loaded idx o st).
Proof.
  intros Hi (Hc & Ha). split.
  - destruct (renderFrame_currentFrameIdx loaded idx o st) as [->|(Hn & ->)];
      [exact Hc|apply Z.rem_nonneg; assumption].
  - rewrite (control_convertAwait (renderFrame_control loaded idx o st)).
    exact Ha.
Qed.

Lemma measureGlyphGrid_indices (o : option Z) (d : Uint8Array) (st : App) :
  frame_indices_nonneg st -> frame_indices_nonneg (measureGlyphGrid o d st).
Proof.
  unfold frame_indices_nonneg, measureGlyphGrid.
  destruct (asciiRef st); intros H; exact H.
Qed.

Lemma apply_response_indices (loaded : bool) (o : option Z)
  (d : Uint8Array) (st : App) :
  (forall frame, o = Some frame -> 0 <= frame) ->
  frame_indices_nonneg st ->
  frame_indices_nonneg (apply_response loaded o d st).
Proof.
  intros Ho I. unfold apply_response.
  destruct (0 <? length_of d); [|exact I].
  apply (measureGlyphGrid_indices o d) in I.
  destruct o as [frame|]; unfold installSingle, install.
  - apply renderFrame_indices; [apply Ho; reflexivity|exact I].
  - apply renderFrame_indices; [apply I|exact I].
Qed.

Lemma convert_loop_indices (o : option Z) (st : App) :
  (forall frame, o = Some frame -> 0 <= frame) ->
  frame_indices_nonneg st -> frame_indices_nonneg (convert_loop o st).
Proof.
  intros Ho (Hc & Ha). split; [exact Hc|].
  unfold convert_loop; cbn. intros a frame Hin Hf.
  apply in_app_or in Hin. destruct Hin as [Hin|[<-|[]]].
  - exact (Ha a frame Hin Hf).
  - apply Ho. exact Hf.
Qed.

Lemma convert_indices (loaded : bool) (o : option Z) (st : App) :
  (forall frame, o = Some frame -> 0 <= frame) ->
  frame_indices_nonneg st -> frame_indices_nonneg (convert loaded o st).
Proof.
  intros Ho I. unfold convert.
  destruct (negb loaded); [exact I|].
  destruct (isUpdating st); [exact I|].
  apply convert_loop_indices; [exact Ho|exact I].
Qed.

Lemma In_remove_nth {A : Type} (k : nat) (l : list A) (x : A) :
  In x (remove_nth k l) -> In x l.
Proof.
  unfold remove_nth. intros H. apply in_app_or in H.
  rewrite <- (firstn_skipn k l). apply in_or_app.
  destruct H as [H|H]; [left; exact H|right].
  rewrite <- (firstn_skipn 1 (skipn k l)). apply in_or_app. right.
  rewrite skipn_skipn. exact H.
Qed.

Lemma step_indices (e : Event) (st st' : App) :
  frame_indices_nonneg st -> step e st = Some st' ->
  frame_indices_nonneg st'.
Proof.
  intros I H. destruct e; cbn in H.
  - destruct (loading st); [discriminate|]. injection H as <-. exact I.
  - destruct (loading st); [|discriminate]. injection H as <-.
    destruct r as [n|e]; cbn; [|exact I].
    destruct (negb (gifLoaded st)); [|exact I].
    unfold effects_on_gifLoaded.
    match goal with
    | |- context [convert true None ?s] =>
        assert (I1 : frame_indices_nonneg (convert true None s))
          by (apply convert_indices; [discriminate|exact I]);
        set (st1 := convert true None s) in *
    end.
    clearbody st1. destruct (count (frameMetadata st1) <=? 1); exact I1.
  - injection H as <-. unfold handleParamChange.
    match goal with
    | |- context [convert ?l (Some ?c) ?s] =>
        assert (I1 : frame_indices_nonneg (convert l (Some c) s))
          by (apply convert_indices;
              [intros frame E; injection E as <-; apply I|exact I]);
        set (st1 := convert l (Some c) s) in *
    end.
    clearbody st1. unfold cancel_debounce, clearTimeout.
    destruct (debounceTimer st1) as [h|]; [destruct (h =? 0)|]; exact I1.
  - destruct (find _ (timeouts st)); [|discriminate]. injection H as <-.
    unfold debounce_callback.
    apply convert_indices; [discriminate|exact I].
  - destruct (nth_error (convertAwait st) k) as [a|] eqn:En; [|discriminate].
    injection H as <-.
    assert (Ho : forall frame, arg_onlyFrame a = Some frame -> 0 <= frame)
      by (intros frame; apply (proj2 I); eapply nth_error_In; exact En).
    assert (I0 : frame_indices_nonneg
                   (set_convertAwait (remove_nth k (convertAwait st)) st)).
    { split; [apply I|]. cbn. intros b frame Hin.
      apply (proj2 I). eapply In_remove_nth; exact Hin. }
    destruct r as [response|e].
    + unfold convert_resolved.
      match goal with
      | |- context [apply_response true ?o ?d ?s] =>
          assert (I1 : frame_indices_nonneg (apply_response true o d s))
            by (apply apply_response_indices; assumption);
          set (st1 := apply_response true o d s) in *
      end.
      clearbody st1. destruct (pendingUpdate st1); [|exact I1].
      apply convert_loop_indices; assumption.
    + exact I0.
  - destruct (nth_error (previewAwait st) k); [|discriminate].
    injection H as <-. destruct r; exact I.
  - destruct (animationFrameId st); [|discriminate]. injection H as <-.
    unfold animate.
    match goal with
    | |- context [if ?c then ?x else st] =>
        assert (I1 : frame_indices_nonneg (if c then x else st));
        [|set (st1 := if c then x else st) in *]
    end.
    { destruct (_ && _); [|exact I].
      apply renderFrame_indices; [cbn; destruct I; lia|exact I]. }
    clearbody st1. exact I1.
  - injection H as <-. unfold calculateAndApplyScale.
    cbn. split_matches; exact I.
Qed.

End FrameIndices.

(** X1: in every reachable state the displayed frame index is not
    negative, and neither is the frame of any single-frame conversion that
    is awaited: [renderFrame] is only ever called with an index of zero or
    more. *)
Theorem frame_indices_never_negative {platform : Platform} (st : App) :
  reachable st -> frame_indices_nonneg st.
Proof.
  induction 1 as [w h|e st st' _ IH H].
  - split; [cbn; lia|]. cbn. intros a frame [].
  - exact (@step_indices _ e st st' IH H).
Qed.

Lemma frame_indices_never_negative_witness :
  reachable (platform := ascii_platform) (after first_edit) /\
  0 <= currentFrameIdx (after first_edit).
Proof.
  assert (R : reachable (platform := ascii_platform) (after first_edit))
    by (apply after_reachable; by_evaluation).
  split; [exact R|].
  exact (proj1 (@frame_indices_never_negative ascii_platform _ R)).
Defined.

(** ** Before a source is loaded *)

Section BeforeLoad.

Context {platform : Platform}.

Lemma effects_on_gifLoaded_gifLoaded (st : App) :
  gifLoaded (effects_on_gifLoaded st) = gifLoaded st.
Proof.
  unfold effects_on_gifLoaded.
  destruct (convert_params true None st) as (_ & _ & H).
  destruct (count (frameMetadata (convert true None st)) <=? 1);
    cbn; exact H.
Qed.

Lemma step_untouched (e : Event) (st st' : App) :
  coordinator_inv st -> untouched st -> gifLoaded st = false ->
  step e st = Some st' -> gifLoaded st' = false -> untouched st'.
Proof.
  intros (_ & _ & _ & _ & _ & Hd & _) U Hl H Hl'.
  destruct U as (Ub & Um & Ur & Uc & Uu & Ui & Ua & Up & Uf & Uv).
  destruct e; cbn in H.
  - destruct (loading st); [discriminate|]. injection H as <-.
    unfold untouched; cbn. repeat (split; [assumption|]).
    intros call Hin. apply in_app_or in Hin.
    destruct Hin as [Hin|[<-|[]]]; [apply Uv, Hin|reflexivity].
  - destruct (loading st); [|discriminate]. injection H as <-.
    destruct r as [n|e].
    + exfalso. revert Hl'. unfold handleOpen_settled. cbn. rewrite Hl. cbn.
      rewrite effects_on_gifLoaded_gifLoaded. cbn. discriminate.
    + unfold untouched; cbn. repeat (split; [assumption|]). exact Uv.
  - injection H as <-. rewrite Hl.
    unfold handleParamChange, convert, cancel_debounce, clearTimeout. cbn.
    unfold untouched.
    destruct (debounceTimer st) as [h|]; [destruct (h =? 0)|]; cbn;
      repeat (split; [assumption|]); exact Uv.
  - destruct (find _ (timeouts st)) as [t|] eqn:Ef; [|discriminate].
    injection H as <-. apply find_some in Ef as (Hin & _).
    destruct (closure_gifLoaded t) eqn:Ec.
    + destruct (Hd t Hin) as (_ & Hg). rewrite (Hg Ec) in Hl. discriminate.
    + unfold debounce_callback, convert, untouched; cbn.
      repeat (split; [assumption|]). exact Uv.
  - rewrite Ua in H. destruct k; discriminate.
  - rewrite Up in H. destruct k; discriminate.
  - rewrite Uf in H. discriminate.
  - injection H as <-. unfold calculateAndApplyScale. cbn.
    rewrite Ur, Um. cbn. unfold untouched; cbn. rewrite Um.
    repeat (split; [assumption || reflexivity|]). exact Uv.
Qed.

Lemma step_gifLoaded (e : Event) (st st' : App) :
  step e st = Some st' -> gifLoaded st = true -> gifLoaded st' = true.
Proof.
  intros H Hl. destruct e; cbn in H.
  - destruct (loading st); [discriminate|]. injection H as <-. exact Hl.
  - destruct (loading st); [|discriminate]. injection H as <-.
    destruct r; cbn; [|exact Hl]. rewrite Hl. reflexivity.
  - injection H as <-. unfold handleParamChange.
    match goal with
    | |- context [convert ?l ?o ?s] =>
        destruct (convert_params l o s) as (_ & _ & E);
        set (st1 := convert l o s) in *
    end.
    clearbody st1. cbn in E. unfold cancel_debounce, clearTimeout.
    destruct (debounceTimer st1) as [h|]; [destruct (h =? 0)|]; cbn;
      congruence.
  - destruct (find _ (timeouts st)); [|discriminate]. injection H as <-.
    unfold debounce_callback.
    match goal with
    | |- context [convert ?l ?o ?s] =>
        destruct (convert_params l o s) as (_ & _ & E)
    end.
    rewrite E. exact Hl.
  - destruct (nth_error (convertAwait st) k) as [a|]; [|discriminate].
    injection H as <-. destruct r as [response|e]; [|exact Hl].
    unfold convert_resolved.
    match goal with
    | |- context [apply_response true ?o ?d ?s] =>
        pose proof (control_gifLoaded (apply_response_control true o d s))
          as E;
        set (st1 := apply_response true o d s) in *
    end.
    clearbody st1. cbn in E.
    destruct (pendingUpdate st1); cbn; congruence.
  - destruct (nth_error (previewAwait st) k); [|discriminate].
    injection H as <-. destruct r; exact Hl.
  - destruct (animationFrameId st); [|discriminate]. injection H as <-.
    unfold animate.
    match goal with
    | |- context [if ?c then ?x else st] =>
        assert (E : gifLoaded (if c then x else st) = gifLoaded st);
        [|set (st1 := if c then x else st) in *]
    end.
    { destruct (_ && _); [|reflexivity].
      rewrite (control_gifLoaded (renderFrame_control _ _ _ _)).
      reflexivity. }
    clearbody st1. cbn. congruence.
  - injection H as <-.
    rewrite (control_gifLoaded (calculateAndApplyScale_control _)).
    exact Hl.
Qed.

End BeforeLoad.

(** X2: until a source has been loaded, whatever happens (slider moves,
    timeouts, resizes, failed or pending opens), the component asks the
    backend for nothing but [load_gif], awaits no conversion or preview,
    renders nothing, and runs no animation. *)
Theorem nothing_before_load {platform : Platform} (st : App) :
  reachable st -> gifLoaded st = false -> untouched st.
Proof.
  induction 1 as [w h|e st st' R IH H]; intros Hl.
  - unfold untouched; cbn. repeat (split; [reflexivity|]). intros call [].
  - destruct (gifLoaded st) eqn:E.
    + rewrite (step_gifLoaded e st H E) in Hl. discriminate.
    + exact (@step_untouched _ e st st' (reachable_inv R) (IH eq_refl) E H Hl).
Qed.

Lemma nothing_before_load_witness :
  (reachable (platform := ascii_platform)
     (after [ParamChange (setWidth 120); Resized 640 480; OpenSelected;
             TimeoutFired 1; LoadSettled (Rejected "not a gif")]) /\
   gifLoaded
     (after [ParamChange (setWidth 120); Resized 640 480; OpenSelected;
             TimeoutFired 1; LoadSettled (Rejected "not a gif")]) = false) /\
  untouched
    (after [ParamChange (setWidth 120); Resized 640 480; OpenSelected;
            TimeoutFired 1; LoadSettled (Rejected "not a gif")]).
Proof.
  assert (R : reachable (platform := ascii_platform)
                (after [ParamChange (setWidth 120); Resized 640 480;
                        OpenSelected; TimeoutFired 1;
                        LoadSettled (Rejected "not a gif")]))
    by (apply after_reachable; by_evaluation).
  assert (L : gifLoaded
                (after [ParamChange (setWidth 120); Resized 640 480;
                        OpenSelected; TimeoutFired 1;
                        LoadSettled (Rejected "not a gif")]) = false)
    by by_evaluation.
  split; [split; assumption|].
  exact (@nothing_before_load ascii_platform _ R L).
Defined.

(** ** Bookkeeping the event loop maintains *)

(** X3: in every reachable state at most one debounce timeout is armed; it
    has a delay of 150 ms and a positive handle, and it is the one
    [debounceTimer] names. *)
Theorem one_debounce_timeout {platform : Platform} (st : App) :
  reachable st ->
  timeouts st = [] \/
  exists t,
    timeouts st = [t] /\ delay t = 150 /\ 0 < handle t /\
    debounceTimer st = Some (handle t).
Proof.
  intros R. destruct (reachable_inv R) as (_ & _ & _ & _ & Ht & Hd & Hh).
  destruct Ht as [Ht|(t & Ht & Hdt)]; [left; exact Ht|right].
  exists t. split; [exact Ht|]. split.
  - apply Hd. rewrite Ht. left. reflexivity.
  - split; [apply Hh; exact Hdt|exact Hdt].
Qed.

Lemma one_debounce_timeout_witness :
  reachable (platform := ascii_platform)
    (after (first_edit ++ [ParamChange (setContrast 2)])) /\
  timeouts (after (first_edit ++ [ParamChange (setContrast 2)])) =
    [{| handle := 3; delay := 150; closure_gifLoaded := true |}].
Proof.
  assert (R : reachable (platform := ascii_platform)
                (after (first_edit ++ [ParamChange (setContrast 2)])))
    by (apply after_reachable; by_evaluation).
  split; [exact R|].
  destruct (@one_debounce_timeout ascii_platform _ R) as [H|(t & H & _)];
    by_evaluation.
Defined.

(** X4: between two events [paramsRef] holds the parameters the sliders
    show: the effect has caught up with every state change. *)
Theorem paramsRef_follows_params {platform : Platform} (st : App) :
  reachable st -> paramsRef st = params st.
Proof. intros R. symmetry. exact (proj1 (reachable_inv R)). Qed.

Lemma paramsRef_follows_params_witness :
  reachable (platform := ascii_platform) (after first_edit) /\
  paramsRef (after first_edit) =
    {| width := 100; brightness := 10; contrast := 1 |}.
Proof.
  assert (R : reachable (platform := ascii_platform) (after first_edit))
    by (apply after_reachable; by_evaluation).
  split; [exact R|].
  rewrite (@paramsRef_follows_params ascii_platform _ R). by_evaluation.
Defined.

(** ** One call, one round *)

(** X5: a [convert] called while the component is idle runs its loop exactly
    once if nothing is requested before its response: one call is sent,
    with the parameters of that moment, and when it resolves the loop ends
    with nothing awaited.  This holds whatever [pendingUpdate] was before
    the call; a flag left set by an earlier rejected call is cleared
    before the call is sent and causes no replay. *)
Theorem convert_runs_once_when_undisturbed {platform : Platform} (st : App)
  (onlyFrame : option Z) (response : Z * Uint8Array) :
  reachable st -> gifLoaded st = true -> isUpdating st = false ->
  exists st',
    step (ConvertSettled 0 (Resolved response)) (convert true onlyFrame st)
      = Some st' /\
    conversions (invoked st') =
      conversions (invoked st) ++ [convert_args (paramsRef st) onlyFrame] /\
    convertAwait st' = [] /\
    isUpdating st' = false /\
    pendingUpdate st' = false.
Proof.
  intros R Hl Hu. destruct (reachable_inv R) as (_ & Hs & _).
  destruct Hs as [(Hc & _)|(a & _ & Hu')]; [|congruence].
  unfold convert. rewrite Hu. cbn [negb].
  set (st1 := convert_loop onlyFrame (set_isUpdating true st)).
  assert (F1 : convertAwait st1 = [convert_args (paramsRef st) onlyFrame])
    by (subst st1; unfold convert_loop; cbn; rewrite Hc; reflexivity).
  assert (F2 : pendingUpdate st1 = false) by reflexivity.
  assert (F3 : conversions (invoked st1) =
               conversions (invoked st)
                 ++ [convert_args (paramsRef st) onlyFrame])
    by (subst st1; unfold convert_loop; cbn; rewrite conversions_app;
        reflexivity).
  clearbody st1. cbn [step]. rewrite F1. cbn [nth_error].
  eexists. split; [reflexivity|].
  unfold remove_nth. cbn [firstn skipn app arg_onlyFrame convert_args].
  unfold convert_resolved.
  pose proof (apply_response_control true onlyFrame (snd response)
                (set_convertAwait [] st1)) as C.
  set (st2 := apply_response true onlyFrame (snd response) _) in *.
  clearbody st2. control_eqs C. cbn in *.
  replace (pendingUpdate st2) with false by congruence.
  cbn. repeat split; congruence.
Qed.

Lemma convert_runs_once_when_undisturbed_witness :
  (reachable (platform := ascii_platform) (after rejected_with_pending) /\
   gifLoaded (after rejected_with_pending) = true /\
   isUpdating (after rejected_with_pending) = false /\
   pendingUpdate (after rejected_with_pending) = true) /\
  exists st',
    step (platform := ascii_platform)
      (ConvertSettled 0 (Resolved (2, two_frames)))
      (convert true None (after rejected_with_pending)) = Some st' /\
    convertAwait st' = [] /\ isUpdating st' = false.
Proof.
  assert (R : reachable (platform := ascii_platform)
                (after rejected_with_pending))
    by (apply after_reachable; by_evaluation).
  assert (L : gifLoaded (after rejected_with_pending) = true)
    by by_evaluation.
  assert (U : isUpdating (after rejected_with_pending) = false)
    by by_evaluation.
  split.
  - split; [exact R|]. split; [exact L|]. split; [exact U|by_evaluation].
  - destruct (@convert_runs_once_when_undisturbed ascii_platform _ None
                (2, two_frames) R L U) as (st' & Hs & _ & Hc & Hu & _).
    exists st'. auto.
Defined.

(** ** Opening a source *)

(** X6: what [handleOpen] does when [load_gif] settles.  A rejection is
    recorded in [error] and changes nothing else but [loading].  The first
    success sets [count], marks the source loaded and sends exactly one bulk
    conversion with the current parameters; the animation is registered
    when there is more than one frame.  A success while a source is already
    loaded only replaces [count]: no conversion is sent, the buffer, its
    frame size and the displayed frame index stay, and the animation is
    neither started nor stopped. *)
Theorem handleOpen_outcomes {platform : Platform} (st : App)
  (r : Settled Z) :
  reachable st -> loading st = true ->
  exists st',
    step (LoadSettled r) st = Some st' /\
    loading st' = false /\
    asciiBuffer st' = asciiBuffer st /\
    size (frameMetadata st') = size (frameMetadata st) /\
    currentFrameIdx st' = currentFrameIdx st /\
    match r with
    | Rejected e =>
        error st' = e /\
        gifLoaded st' = gifLoaded st /\
        count (frameMetadata st') = count (frameMetadata st) /\
        invoked st' = invoked st
    | Resolved n =>
        error st' = error st /\
        gifLoaded st' = true /\
        count (frameMetadata st') = n /\
        (gifLoaded st = false ->
         invoked st' =
           invoked st
             ++ [convert_gif_to_ascii (convert_args (paramsRef st) None)] /\
         convertAwait st' = [convert_args (paramsRef st) None] /\
         (1 < n -> animationFrameId st' = Some (nextHandle st)) /\
         (n <= 1 -> animationFrameId st' = animationFrameId st)) /\
        (gifLoaded st = true ->
         invoked st' = invoked st /\
         convertAwait st' = convertAwait st /\
         animationFrameId st' = animationFrameId st)
    end.
Proof.
  intros R Hload. destruct (reachable_inv R) as (_ & Hs & Hg & _).
  cbn [step]. rewrite Hload. eexists. split; [reflexivity|].
  destruct r as [n|e]; [|cbn; repeat split].
  unfold handleOpen_settled.
  change (gifLoaded (set_frameMetadata (set_count n (frameMetadata st)) st))
    with (gifLoaded st).
  destruct (gifLoaded st) eqn:Hl; cbn [negb].
  - cbn. repeat split; intros; discriminate.
  - assert (Hu : isUpdating st = false).
    { destruct (isUpdating st) eqn:E; [|reflexivity].
      specialize (Hg eq_refl). discriminate. }
    assert (Hc : convertAwait st = []).
    { destruct Hs as [(Hc & _)|(a & _ & Hu')]; [exact Hc|congruence]. }
    unfold effects_on_gifLoaded, convert, convert_loop. cbn.
    rewrite Hu, Hc. cbn.
    destruct (n <=? 1) eqn:En; cbn;
      repeat split; try discriminate; intros; try reflexivity;
      try (apply Z.leb_le in En; lia); try (apply Z.leb_gt in En; lia).
Qed.

Lemma handleOpen_outcomes_witness :
  (reachable (platform := ascii_platform)
     (after (session_start ++ [OpenSelected])) /\
   loading (after (session_start ++ [OpenSelected])) = true) /\
  exists st',
    step (platform := ascii_platform) (LoadSettled (Resolved 5))
      (after (session_start ++ [OpenSelected])) = Some st' /\
    count (frameMetadata st') = 5 /\
    asciiBuffer st' = Some two_frames /\
    conversions (invoked st') =
      [convert_args {| width := 100; brightness := 0; contrast := 1 |} None].
Proof.
  assert (R : reachable (platform := ascii_platform)
                (after (session_start ++ [OpenSelected])))
    by (apply after_reachable; by_evaluation).
  assert (L : loading (after (session_start ++ [OpenSelected])) = true)
    by by_evaluation.
  split; [split; assumption|].
  destruct (@handleOpen_outcomes ascii_platform _ (Resolved 5) R L)
    as (st' & Hs & _ & Hb & _ & _ & _ & _ & Hc & _ & Hre).
  exists st'. split; [exact Hs|]. split; [exact Hc|].
  split; [rewrite Hb; by_evaluation|].
  destruct Hre as (Hi & _); [by_evaluation|].
  rewrite Hi. by_evaluation.
Defined.

(** ** Empty responses *)

(** X7: a conversion that resolves with no bytes is not applied: the frame
    buffer and its layout, the rendered frame, the playback state, the
    awaited previews and the error are as before; only the loop's own
    bookkeeping moves on. *)
Theorem empty_response_ignored {platform : Platform} (st : App) (k : nat)
  (a : ConvertArgs) (n : Z) :
  nth_error (convertAwait st) k = Some a ->
  exists st',
    step (ConvertSettled k (Resolved (n, []))) st = Some st' /\
    frame_buffer st' = frame_buffer st /\
    asciiRef st' = asciiRef st /\
    playback st' = playback st /\
    previewAwait st' = previewAwait st /\
    adjustedPreviewUrl st' = adjustedPreviewUrl st /\
    error st' = error st.
Proof.
  intros H. cbn [step]. rewrite H. eexists. split; [reflexivity|].
  unfold convert_resolved, apply_response. cbn.
  destruct (pendingUpdate st); cbn; repeat split.
Qed.

Lemma empty_response_ignored_witness :
  nth_error (convertAwait (after first_edit)) 0 =
    Some (convert_args {| width := 100; brightness := 0; contrast := 1 |}
            (Some 0)) /\
  exists st',
    step (platform := ascii_platform) (ConvertSettled 0 (Resolved (2, [])))
      (after first_edit) = Some st' /\
    frame_buffer st' = frame_buffer (after first_edit).
Proof.
  assert (H : nth_error (convertAwait (after first_edit)) 0 =
              Some (convert_args
                      {| width := 100; brightness := 0; contrast := 1 |}
                      (Some 0))) by by_evaluation.
  split; [exact H|].
  destruct (@empty_response_ignored ascii_platform _ 0 _ 2 H)
    as (st' & Hs & Hf & _).
  exists st'. split; assumption.
Defined.

(** ** What a render does *)

(** [renderFrame] with a buffer, a mounted [<pre>] and a non-zero count:
    the index becomes [idx % count], the text the decoded slice, and one
    preview is requested for that index when the source is loaded.  The
    coordinator's state and the frame buffer are not touched. *)
Lemma renderFrame_spec {platform : Platform} (loaded : bool) (idx : Z)
  (o : option Uint8Array) (st : App) (buffer : Uint8Array) (pre : Pre) :
  match o with Some b => Some b | None => asciiBuffer st end = Some buffer ->
  asciiRef st = Some pre ->
  count (frameMetadata st) <> 0 ->
  let st' := renderFrame loaded idx o st in
  let safeIdx := Z.rem idx (count (frameMetadata st)) in
  currentFrameIdx st' = safeIdx /\
  option_map textContent (asciiRef st') =
    Some (decode (sliceFor (count (frameMetadata st))
                    (size (frameMetadata st)) buffer idx)) /\
  previewAwait st' =
    previewAwait st
      ++ (if loaded then [preview_args (paramsRef st) safeIdx] else []) /\
  invoked st' =
    invoked st
      ++ (if loaded
          then [apply_adjustments_to_preview
                  (preview_args (paramsRef st) safeIdx)]
          else []).
Proof.
  intros Hb Hr Hc. cbv zeta. unfold renderFrame. rewrite Hb, Hr.
  destruct (count (frameMetadata st) =? 0) eqn:E;
    [apply Z.eqb_eq in E; contradiction|].
  unfold updatePreview, calculateAndApplyScale, preview_args. cbn.
  destruct loaded; cbn;
    destruct (viewportRef st); cbn; rewrite ?app_nil_r;
    try (destruct (rawW (frameMetadata st) =? 0); cbn);
    repeat split; reflexivity.
Qed.

(** ** The animation clock in autoplay *)

Section Autoplay.

Context {platform : Platform}.

Lemma animate_throttled (time : Q) (st : App) :
  (time - lastFrameTime st <= 100)%Q ->
  animate true time st =
  set_animationFrameId (Some (nextHandle st))
    (set_nextHandle (nextHandle st + 1) st).
Proof.
  intros H. unfold animate.
  rewrite (proj2 (Qle_bool_iff _ _) H), andb_false_r. reflexivity.
Qed.

Lemma animate_advances (time : Q) (st : App) (buffer : Uint8Array) :
  isInteractive st = false ->
  (100 < time - lastFrameTime st)%Q ->
  asciiBuffer st = Some buffer ->
  asciiRef st <> None ->
  count (frameMetadata st) <> 0 ->
  let st' := animate true time st in
  currentFrameIdx st' =
    Z.rem (currentFrameIdx st + 1) (count (frameMetadata st)) /\
  lastFrameTime st' = time /\
  isInteractive st' = false /\
  animationFrameId st' <> None /\
  asciiRef st' <> None /\
  frame_buffer st' = frame_buffer st /\
  List.length (previewAwait st') = S (List.length (previewAwait st)) /\
  option_map textContent (asciiRef st') =
    Some (decode (sliceFor (count (frameMetadata st))
                    (size (frameMetadata st)) buffer
                    (currentFrameIdx st + 1))).
Proof.
  intros Hi Ht Hb Hr Hc. cbv zeta. unfold animate.
  assert (E : Qle_bool (time - lastFrameTime st) 100 = false).
  { destruct (Qle_bool (time - lastFrameTime st) 100) eqn:E; [|reflexivity].
    apply Qle_bool_iff in E. exfalso. exact (Qlt_not_le _ _ Ht E). }
  rewrite Hi, E. cbn [negb andb].
  destruct (asciiRef st) as [pre|] eqn:Er; [|contradiction].
  match goal with
  | |- context [renderFrame true ?i None ?s] =>
      destruct (@renderFrame_spec _ true i None s buffer pre Hb Er Hc)
        as (H1 & H2 & H3 & _);
      pose proof (renderFrame_control true i None s) as C;
      pose proof (renderFrame_frame_buffer true i None s) as F;
      set (st1 := renderFrame true i None s) in *
  end.
  clearbody st1.
  destruct (control_playback_flags C) as (C1 & C2 & _ & _).
  cbn in H1, H2, H3, C1, C2, F |- *.
  split; [exact H1|]. split; [exact C2|]. split; [congruence|].
  split; [discriminate|]. split.
  - destruct (asciiRef st1); [discriminate|]. discriminate.
  - split; [exact F|]. split; [|exact H2].
    rewrite H3, length_app. cbn. lia.
Qed.

Lemma last_cons {A : Type} (x d : A) (l : list A) :
  List.last (x :: l) d = List.last l x.
Proof.
  revert x d. induction l as [|y l IH]; intros x d; [reflexivity|].
  change (List.last (y :: l) d = List.last (y :: l) x).
  rewrite (IH y d), (IH y x). reflexivity.
Qed.

End Autoplay.

(** X8: in autoplay, with a buffer installed, animation frames that each
    come more than 100 ms after the last advance move the display on by one
    frame each and wrap around at [count]: after [n] of them the index is
    [(index + n) mod count].  The buffer and its layout are not touched,
    the time of the last advance is that of the last frame, and every
    advance adds one preview request. *)
Theorem autoplay_advances_and_wraps {platform : Platform} (times : list Q) :
  forall (st : App) (buffer : Uint8Array),
  isInteractive st = false ->
  animationFrameId st <> None ->
  asciiBuffer st = Some buffer ->
  asciiRef st <> None ->
  0 <= currentFrameIdx st < count (frameMetadata st) ->
  spaced (lastFrameTime st) times ->
  exists st',
    run (map AnimationFrame times) st = Some st' /\
    currentFrameIdx st' =
      (currentFrameIdx st + Z.of_nat (List.length times))
        mod count (frameMetadata st) /\
    lastFrameTime st' = last_time (lastFrameTime st) times /\
    isInteractive st' = false /\
    frame_buffer st' = frame_buffer st /\
    List.length (previewAwait st') =
      (List.length (previewAwait st) + List.length times)%nat.
Proof.
  induction times as [|t times IH]; intros st buffer Hi Ha Hb Hr Hc Hs.
  - exists st. cbn. rewrite Z.add_0_r, Z.mod_small by lia.
    repeat split; auto.
  - destruct Hs as (Ht & Hs). cbn [map run step].
    destruct (animationFrameId st) eqn:Ea; [|contradiction].
    destruct (@animate_advances _ t st buffer Hi Ht Hb Hr ltac:(lia))
      as (H1 & H2 & H3 & H4 & H5 & H6 & H7 & _).
    set (st1 := animate true t st) in *. clearbody st1.
    assert (Hm : frameMetadata st1 = frameMetadata st)
      by (unfold frame_buffer in H6; congruence).
    assert (Hb1 : asciiBuffer st1 = Some buffer)
      by (unfold frame_buffer in H6; congruence).
    assert (Hrem : Z.rem (currentFrameIdx st + 1) (count (frameMetadata st)) =
                   (currentFrameIdx st + 1) mod count (frameMetadata st))
      by (apply Z.rem_mod_nonneg; lia).
    assert (Hc1 : 0 <= currentFrameIdx st1 < count (frameMetadata st1)).
    { rewrite H1, Hm, Hrem. apply Z.mod_pos_bound. lia. }
    rewrite <- H2 in Hs.
    destruct (IH st1 buffer H3 H4 Hb1 H5 Hc1 Hs)
      as (st' & Hr' & G1 & G2 & G3 & G4 & G5).
    exists st'. split; [exact Hr'|]. split; [|split; [|split; [|split]]].
    + rewrite G1, H1, Hm, Hrem. cbn [List.length].
      rewrite Zplus_mod_idemp_l. f_equal. lia.
    + rewrite G2, H2. unfold last_time. symmetry. apply last_cons.
    + exact G3.
    + congruence.
    + rewrite G5, H7. cbn [List.length]. lia.
Qed.

Lemma autoplay_advances_and_wraps_witness :
  (isInteractive (after playing) = false /\
   animationFrameId (after playing) <> None /\
   asciiBuffer (after playing) = Some two_frames /\
   asciiRef (after playing) <> None /\
   0 <= currentFrameIdx (after playing)
     < count (frameMetadata (after playing)) /\
   spaced (lastFrameTime (after playing)) [150; 300; 450]%Q) /\
  exists st',
    run (platform := ascii_platform)
      (map AnimationFrame [150; 300; 450]%Q) (after playing) = Some st' /\
    currentFrameIdx st' = 1.
Proof.
  assert (Hi : isInteractive (after playing) = false) by by_evaluation.
  assert (Ha : animationFrameId (after playing) <> None) by by_evaluation.
  assert (Hb : asciiBuffer (after playing) = Some two_frames)
    by by_evaluation.
  assert (Hr : asciiRef (after playing) <> None) by by_evaluation.
  assert (Hc : 0 <= currentFrameIdx (after playing)
               < count (frameMetadata (after playing)))
    by (vm_compute; split; [discriminate|reflexivity]).
  assert (Hs : spaced (lastFrameTime (after playing)) [150; 300; 450]%Q)
    by (vm_compute; repeat split).
  split; [exact (conj Hi (conj Ha (conj Hb (conj Hr (conj Hc Hs)))))|].
  destruct (@autoplay_advances_and_wraps ascii_platform [150; 300; 450]%Q
              _ two_frames Hi Ha Hb Hr Hc Hs) as (st' & H1 & H2 & _).
  exists st'. split; [exact H1|]. rewrite H2. by_evaluation.
Defined.

(** X9: animation frames that come within 100 ms of the last advance
    change nothing but the registration of the next frame, in autoplay as
    in interactive mode: the index, the rendered frame, the time of the
    last advance, the buffer and the preview requests stay as they are. *)
Theorem autoplay_is_throttled {platform : Platform} (times : list Q) :
  forall st : App,
  animationFrameId st <> None ->
  Forall (fun t => (t - lastFrameTime st <= 100)%Q) times ->
  exists st',
    run (map AnimationFrame times) st = Some st' /\
    currentFrameIdx st' = currentFrameIdx st /\
    lastFrameTime st' = lastFrameTime st /\
    asciiRef st' = asciiRef st /\
    frame_buffer st' = frame_buffer st /\
    previewAwait st' = previewAwait st /\
    invoked st' = invoked st.
Proof.
  induction times as [|t times IH]; intros st Ha Hf.
  - exists st. repeat split; auto.
  - inversion Hf as [|? ? Ht Hf']; subst. cbn [map run step].
    destruct (animationFrameId st) eqn:Ea; [|contradiction].
    rewrite (@animate_throttled _ t st Ht).
    destruct (IH (set_animationFrameId (Some (nextHandle st))
                    (set_nextHandle (nextHandle st + 1) st)))
      as (st' & Hr & H1 & H2 & H3 & H4 & H5 & H6);
      [discriminate|exact Hf'|].
    exists st'. repeat split; assumption.
Qed.

Lemma autoplay_is_throttled_witness :
  (animationFrameId (after playing) <> None /\
   Forall (fun t => (t - lastFrameTime (after playing) <= 100)%Q)
     [16; 50; 100]%Q) /\
  exists st',
    run (platform := ascii_platform)
      (map AnimationFrame [16; 50; 100]%Q) (after playing) = Some st' /\
    currentFrameIdx st' = currentFrameIdx (after playing).
Proof.
  assert (Ha : animationFrameId (after playing) <> None) by by_evaluation.
  assert (Hf : Forall (fun t => (t - lastFrameTime (after playing) <= 100)%Q)
                 [16; 50; 100]%Q)
    by (repeat constructor; vm_compute; discriminate).
  split; [split; assumption|].
  destruct (@autoplay_is_throttled ascii_platform [16; 50; 100]%Q _ Ha Hf)
    as (st' & H1 & H2 & _).
  exists st'. split; assumption.
Defined.

(** ** The viewport scale *)

(** X10: [calculateAndApplyScale] is idempotent: applying it again, with
    the same viewport and grid, changes nothing. *)
Theorem calculateAndApplyScale_idempotent (st : App) :
  calculateAndApplyScale (calculateAndApplyScale st) =
  calculateAndApplyScale st.
Proof.
  unfold calculateAndApplyScale.
  destruct (asciiRef st) as [pre|] eqn:Er; [|rewrite Er; reflexivity].
  destruct (viewportRef st) as [vp|] eqn:Ev; [|rewrite Er, Ev; reflexivity].
  destruct (rawW (frameMetadata st) =? 0) eqn:Ew;
    [rewrite Er, Ev, Ew; reflexivity|].
  cbn. rewrite Ev, Ew.
  destruct (Num.min _ _); destruct pre; reflexivity.
Qed.

(** The sign of a quotient by a positive integer is the sign of the
    numerator; rounding to a double keeps it. *)
Lemma Qred_div_sign (a b : Z) :
  0 < b ->
  ((0 < Qred (inject_Z a / inject_Z b))%Q <-> 0 < a) /\
  ((Qred (inject_Z a / inject_Z b) == 0)%Q <-> a = 0) /\
  ((Qred (inject_Z a / inject_Z b) < 0)%Q <-> a < 0).
Proof.
  intros Hb. destruct b as [|p|p]; try lia.
  repeat split; rewrite Qred_correct;
    unfold Qdiv, Qinv, Qmult, Qlt, Qeq, inject_Z; cbn; lia.
Qed.

(** X11: with a measured grid of positive width and height the scale is
    always assigned, and nothing keeps it positive: its sign is that of the
    smaller of the two viewport dimensions less the 40 pixel margin.  It is
    positive exactly when both dimensions exceed 40, zero when the smaller
    is 40, and negative when one is below 40. *)
Theorem scale_sign_follows_viewport (st : App) (pre : Pre) (viewport : Div) :
  asciiRef st = Some pre ->
  viewportRef st = Some viewport ->
  0 < rawW (frameMetadata st) ->
  0 < rawH (frameMetadata st) ->
  exists scale,
    asciiRef (calculateAndApplyScale st) =
      Some (set_transform (TransformCenterScale scale) pre) /\
    ((0 < scale)%Q <->
     40 < clientWidth viewport /\ 40 < clientHeight viewport) /\
    ((scale == 0)%Q <->
     Z.min (clientWidth viewport) (clientHeight viewport) = 40) /\
    ((scale < 0)%Q <->
     clientWidth viewport < 40 \/ clientHeight viewport < 40).
Proof.
  intros Hr Hv Hw Hh. unfold calculateAndApplyScale. rewrite Hr, Hv.
  destruct (rawW (frameMetadata st) =? 0) eqn:Ew;
    [apply Z.eqb_eq in Ew; lia|].
  unfold div_Z. rewrite Ew.
  destruct (rawH (frameMetadata st) =? 0) eqn:Eh;
    [apply Z.eqb_eq in Eh; lia|].
  destruct (Qred_div_sign (clientWidth viewport - 40) Hw) as (Xp & Xz & Xn).
  destruct (Qred_div_sign (clientHeight viewport - 40) Hh) as (Yp & Yz & Yn).
  set (x := Qred (inject_Z (clientWidth viewport - 40)
                  / inject_Z (rawW (frameMetadata st)))) in *.
  set (y := Qred (inject_Z (clientHeight viewport - 40)
                  / inject_Z (rawH (frameMetadata st)))) in *.
  clearbody x y.
  assert (Tx : (0 < x \/ x == 0 \/ x < 0)%Q)
    by (destruct (Q_dec 0 x) as [[?|?]|?]; [tauto|tauto|right; left; lra]).
  assert (Ty : (0 < y \/ y == 0 \/ y < 0)%Q)
    by (destruct (Q_dec 0 y) as [[?|?]|?]; [tauto|tauto|right; left; lra]).
  cbn [Num.min]. destruct (Qle_bool x y) eqn:E; cbn.
  - apply Qle_bool_iff in E. exists x. split; [reflexivity|].
    destruct Tx as [Hx|[Hx|Hx]], Ty as [Hy|[Hy|Hy]];
      pose proof Hx as Hx'; pose proof Hy as Hy';
      (apply Xp in Hx' || apply Xz in Hx' || apply Xn in Hx');
      (apply Yp in Hy' || apply Yz in Hy' || apply Yn in Hy');
      try lra;
      (split; [|split]); (split; [intros; (lia || lra)|intros; (lra || lia)]).
  - assert (Hyx : (y < x)%Q).
    { apply Qnot_le_lt. intros H. apply Qle_bool_iff in H. congruence. }
    exists y. split; [reflexivity|].
    destruct Tx as [Hx|[Hx|Hx]], Ty as [Hy|[Hy|Hy]];
      pose proof Hx as Hx'; pose proof Hy as Hy';
      (apply Xp in Hx' || apply Xz in Hx' || apply Xn in Hx');
      (apply Yp in Hy' || apply Yz in Hy' || apply Yn in Hy');
      try lra;
      (split; [|split]); (split; [intros; (lia || lra)|intros; (lra || lia)]).
Qed.

Lemma scale_sign_follows_viewport_witness :
  (asciiRef (after narrow_window) =
     Some {| textContent := "aaaaaaaaaa";
             transform := TransformCenterScale (- (1 # 8)) |} /\
   viewportRef (after narrow_window) =
     Some {| clientWidth := 30; clientHeight := 600 |} /\
   0 < rawW (frameMetadata (after narrow_window)) /\
   0 < rawH (frameMetadata (after narrow_window))) /\
  exists scale,
    option_map transform
      (asciiRef (calculateAndApplyScale (after narrow_window))) =
      Some (TransformCenterScale scale) /\
    (scale < 0)%Q.
Proof.
  assert (Hr : asciiRef (after narrow_window) =
               Some {| textContent := "aaaaaaaaaa";
                       transform := TransformCenterScale (- (1 # 8)) |})
    by by_evaluation.
  assert (Hv : viewportRef (after narrow_window) =
               Some {| clientWidth := 30; clientHeight := 600 |})
    by by_evaluation.
  assert (Hw : 0 < rawW (frameMetadata (after narrow_window)))
    by by_evaluation.
  assert (Hh : 0 < rawH (frameMetadata (after narrow_window)))
    by by_evaluation.
  split; [exact (conj Hr (conj Hv (conj Hw Hh)))|].
  destruct (scale_sign_follows_viewport (after narrow_window) Hr Hv Hw Hh)
    as (scale & H1 & _ & _ & H4).
  exists scale. split; [rewrite H1; reflexivity|].
  apply H4. left. cbn. lia.
Defined.

(** ** Slices of a buffer that is too short *)

(** A range that starts at or after 0 is cut off at the end of the
    buffer. *)
Lemma subarray_clamped (buffer : Uint8Array) (a b : Z) :
  0 <= a <= b ->
  subarray buffer (of_Z a) (of_Z b) =
  firstn (Z.to_nat (b - a)) (skipn (Z.to_nat a) buffer).
Proof.
  intros Hab. rewrite subarray_of_Z. cbn.
  destruct (a <? 0) eqn:Ea; [lia|]. destruct (b <? 0) eqn:Eb; [lia|].
  unfold length_of.
  destruct (Z_le_gt_dec a (Z.of_nat (List.length buffer))) as [Hin|Hout].
  - rewrite (Z.min_l a) by lia.
    destruct (Z_le_gt_dec b (Z.of_nat (List.length buffer))) as [Hb|Hb].
    + rewrite Z.min_l, Z.max_l by lia. reflexivity.
    + rewrite Z.min_r, Z.max_l by lia.
      rewrite !firstn_all2; [reflexivity| |]; rewrite length_skipn; lia.
  - rewrite !Z.min_r by lia. rewrite Z.sub_diag. cbn [Z.max Z.to_nat firstn].
    rewrite (skipn_all2 (n := Z.to_nat a)) by lia.
    rewrite firstn_nil. reflexivity.
Qed.

(** X12: [renderFrame] slices a buffer of any length without failing, also
    one too short for [count] frames of [size] bytes.  For a frame size
    [s >= 0] and an index [idx >= 0] the slice starts at the frame's offset
    [(idx mod count) * s] (at 0 when the buffer's length is [s]) and holds
    the bytes the buffer has from there, [s] of them at most: it is a whole
    frame exactly when the buffer reaches to the frame's end, and empty
    when the offset lies beyond the buffer. *)
Theorem sliceFor_short_buffer (count s idx : Z) (buffer : Uint8Array) :
  0 < count -> 0 <= s -> 0 <= idx ->
  let start :=
    if length_of buffer =? s then 0 else (idx mod count) * s in
  sliceFor count (of_Z s) buffer idx =
    firstn (Z.to_nat s) (skipn (Z.to_nat start) buffer) /\
  length_of (sliceFor count (of_Z s) buffer idx) =
    Z.max 0 (Z.min s (length_of buffer - start)) /\
  (length_of (sliceFor count (of_Z s) buffer idx) = s <->
   start + s <= length_of buffer) /\
  (length_of buffer <= start -> sliceFor count (of_Z s) buffer idx = []).
Proof.
  intros Hc Hs Hi start.
  pose proof (Z.mod_pos_bound idx count Hc) as Hm.
  assert (Hstart : 0 <= start) by (subst start; destruct (_ =? _); nia).
  assert (Hzero : s = 0 -> start = 0)
    by (subst start; destruct (_ =? _); nia).
  assert (E : sliceFor count (of_Z s) buffer idx =
              firstn (Z.to_nat s) (skipn (Z.to_nat start) buffer)).
  { unfold sliceFor, slice_bounds. subst start.
    rewrite eqb_of_Z, (Z.rem_mod_nonneg idx count) by lia.
    destruct (length_of buffer =? s).
    - rewrite add_of_Z, subarray_clamped by lia.
      rewrite Z.add_0_l, Z.sub_0_r. reflexivity.
    - rewrite mul_Z_of_Z, add_of_Z, subarray_clamped by nia.
      f_equal. f_equal. lia. }
  assert (L : length_of (sliceFor count (of_Z s) buffer idx) =
              Z.max 0 (Z.min s (length_of buffer - start))).
  { rewrite E. unfold length_of. rewrite length_firstn, length_skipn. lia. }
  split; [exact E|]. split; [exact L|]. split.
  - rewrite L. clearbody start. unfold length_of. lia.
  - intros Hout. apply length_zero_iff_nil.
    clearbody start. unfold length_of in L. unfold length_of in Hout. lia.
Qed.

Lemma sliceFor_short_buffer_witness :
  (0 < 2 /\ 0 <= 15 /\ 0 <= 1) /\
  sliceFor 2 (of_Z 15) two_frames 1 = bytes 5 "b" /\
  length_of (sliceFor 2 (of_Z 15) two_frames 1) = 5 /\
  sliceFor 2 (of_Z 15) two_frames 3 = bytes 5 "b".
Proof.
  assert (H : 0 < 2 /\ 0 <= 15 /\ 0 <= 1) by (repeat split; by_evaluation).
  split; [exact H|]. destruct H as (Hc & Hs & Hi).
  destruct (@sliceFor_short_buffer 2 15 1 two_frames Hc Hs Hi)
    as (E & L & _ & _).
  assert (H3 : 0 <= 3) by by_evaluation.
  destruct (@sliceFor_short_buffer 2 15 3 two_frames Hc Hs H3)
    as (E3 & _).
  split; [rewrite E; by_evaluation|].
  split; [rewrite L; by_evaluation|].
  rewrite E3. by_evaluation.
Defined.

(** ** Well-formed layouts *)

Lemma sliceFor_whole (count s idx : Z) (buffer : Uint8Array) :
  length_of buffer = s -> sliceFor count (of_Z s) buffer idx = buffer.
Proof.
  intros Hl. unfold sliceFor, slice_bounds.
  rewrite eqb_of_Z, Hl, Z.eqb_refl, add_of_Z. cbn [Z.add].
  rewrite subarray_inside by (unfold length_of in *; lia).
  rewrite Z.sub_0_r. cbn [Z.to_nat skipn].
  rewrite <- Hl. unfold length_of. rewrite Nat2Z.id. apply firstn_all.
Qed.

Lemma sliceFor_chunk (count s idx : Z) (buffer : Uint8Array) :
  0 < count -> 0 < s -> length_of buffer = count * s -> 0 <= idx ->
  sliceFor count (of_Z s) buffer idx =
  firstn (Z.to_nat s) (skipn (Z.to_nat ((idx mod count) * s)) buffer).
Proof.
  intros Hc Hs Hl Hi. unfold sliceFor, slice_bounds.
  rewrite eqb_of_Z, (Z.rem_mod_nonneg idx count) by lia.
  pose proof (Z.mod_pos_bound idx count Hc) as Hm.
  destruct (length_of buffer =? s) eqn:E.
  - apply Z.eqb_eq in E. assert (count = 1) by nia. subst count.
    rewrite add_of_Z, Z.mod_1_r. cbn [Z.mul Z.add].
    rewrite subarray_inside by lia. rewrite Z.sub_0_r. reflexivity.
  - rewrite mul_Z_of_Z, add_of_Z. rewrite subarray_inside by nia.
    f_equal. f_equal. lia.
Qed.

Lemma firstn_add_skipn {A : Type} (a b : nat) (l : list A) :
  firstn (a + b) l = firstn a l ++ firstn b (skipn a l).
Proof.
  revert l. induction a as [|a IH]; intros l; [reflexivity|].
  destruct l as [|x l]; cbn; [rewrite firstn_nil; reflexivity|].
  rewrite IH. reflexivity.
Qed.

(** Cutting [c] chunks of [s] elements from the [k]-th chunk on gives the
    [c * s] elements found there. *)
Lemma concat_chunks {A : Type} (s c k : nat) (l : list A) :
  List.concat (map (fun i => firstn s (skipn (i * s) l)) (seq k c)) =
  firstn (c * s) (skipn (k * s) l).
Proof.
  revert k. induction c as [|c IH]; intros k; [reflexivity|].
  cbn [seq map List.concat]. rewrite IH.
  change (S c * s)%nat with (s + c * s)%nat.
  rewrite firstn_add_skipn, skipn_skipn.
  replace (s + k * s)%nat with (S k * s)%nat by (cbn; lia). reflexivity.
Qed.

Lemma download_slices_chunks (st : App) (buffer : Uint8Array) (s : Z) :
  0 < s ->
  size (frameMetadata st) = of_Z s ->
  length_of buffer = count (frameMetadata st) * s ->
  download_slices st buffer =
  map (fun i => firstn (Z.to_nat s) (skipn (i * Z.to_nat s) buffer))
    (seq 0 (Z.to_nat (count (frameMetadata st)))).
Proof.
  intros Hs Hz Hl. unfold download_slices. rewrite Hz, map_map.
  apply map_ext_in. intros i Hi. apply in_seq in Hi.
  assert (Z.of_nat i < count (frameMetadata st)) by lia.
  rewrite !mul_Z_of_Z, subarray_inside by nia.
  f_equal; [f_equal; lia|]. f_equal.
  rewrite Z2Nat.inj_mul, Nat2Z.id by lia. reflexivity.
Qed.

(** X13: when the buffer holds [count] frames of [size] bytes each, the
    export cuts it into exactly those frames: there are [count] of them,
    each of [size] bytes, together they are the whole buffer in order, and
    the [i]-th is the slice [renderFrame] shows for index [i].  These
    decoded are what [handleDownload] hands to [save_ascii_to_file]. *)
Theorem download_exports_every_frame {platform : Platform} (st : App)
  (buffer : Uint8Array) (s : Z) (path : string) :
  asciiBuffer st = Some buffer ->
  0 < s ->
  size (frameMetadata st) = of_Z s ->
  length_of buffer = count (frameMetadata st) * s ->
  path <> EmptyString ->
  handleDownload (Some path) st =
    Some (path, map decode (download_slices st buffer)) /\
  List.length (download_slices st buffer) =
    Z.to_nat (count (frameMetadata st)) /\
  List.concat (download_slices st buffer) = buffer /\
  Forall (fun slice => length_of slice = s) (download_slices st buffer) /\
  forall i, 0 <= i < count (frameMetadata st) ->
    nth_error (download_slices st buffer) (Z.to_nat i) =
    Some (sliceFor (count (frameMetadata st)) (size (frameMetadata st))
            buffer i).
Proof.
  intros Hb Hs Hz Hl Hp.
  assert (Hlen : List.length buffer =
                 (Z.to_nat (count (frameMetadata st)) * Z.to_nat s)%nat).
  { unfold length_of in Hl.
    assert (0 <= count (frameMetadata st)) by nia.
    rewrite <- Z2Nat.inj_mul, <- Hl, Nat2Z.id by lia. reflexivity. }
  split; [|split; [|split; [|split]]].
  - unfold handleDownload. rewrite Hb.
    destruct path; [contradiction|reflexivity].
  - unfold download_slices. rewrite !length_map, length_seq. reflexivity.
  - rewrite (download_slices_chunks st buffer Hs Hz Hl), concat_chunks.
    cbn [Nat.mul skipn]. rewrite <- Hlen. apply firstn_all.
  - rewrite (download_slices_chunks st buffer Hs Hz Hl).
    apply Forall_forall. intros slice Hin. apply in_map_iff in Hin.
    destruct Hin as (i & <- & Hi). apply in_seq in Hi.
    unfold length_of. rewrite length_firstn, length_skipn, Hlen.
    assert ((i * Z.to_nat s + Z.to_nat s
             <= Z.to_nat (count (frameMetadata st)) * Z.to_nat s)%nat)
      by nia.
    lia.
  - intros i Hi. rewrite (download_slices_chunks st buffer Hs Hz Hl).
    rewrite nth_error_map, nth_error_seq.
    destruct (Nat.ltb_spec (Z.to_nat i)
                (Z.to_nat (count (frameMetadata st)))); [|lia].
    cbn [option_map Nat.add]. rewrite Hz.
    rewrite sliceFor_chunk by lia.
    rewrite Z.mod_small by lia. do 3 f_equal.
    rewrite Z2Nat.inj_mul by lia. reflexivity.
Qed.

Lemma download_exports_every_frame_witness :
  (asciiBuffer (after session_start) = Some two_frames /\
   0 < 10 /\
   size (frameMetadata (after session_start)) = of_Z 10 /\
   length_of two_frames = count (frameMetadata (after session_start)) * 10 /\
   "ascii_art.txt"%string <> EmptyString) /\
  handleDownload (platform := ascii_platform) (Some "ascii_art.txt"%string)
    (after session_start) =
    Some ("ascii_art.txt"%string, ["aaaaaaaaaa"%string; "bbbbbbbbbb"%string]).
Proof.
  assert (Hb : asciiBuffer (after session_start) = Some two_frames)
    by by_evaluation.
  assert (Hz : size (frameMetadata (after session_start)) = of_Z 10)
    by by_evaluation.
  assert (Hl : length_of two_frames =
               count (frameMetadata (after session_start)) * 10)
    by by_evaluation.
  assert (Hs : 0 < 10) by lia.
  assert (Hp : "ascii_art.txt"%string <> EmptyString) by discriminate.
  split; [exact (conj Hb (conj Hs (conj Hz (conj Hl Hp))))|].
  rewrite (proj1 (@download_exports_every_frame ascii_platform _ _ 10 _
                    Hb Hs Hz Hl Hp)).
  by_evaluation.
Defined.

(** ** What a response shows *)

Lemma measureGlyphGrid_keeps {platform : Platform} (o : option Z)
  (d : Uint8Array) (st : App) :
  let st' := measureGlyphGrid o d st in
  asciiRef st' = asciiRef st /\
  asciiBuffer st' = asciiBuffer st /\
  count (frameMetadata st') = count (frameMetadata st) /\
  size (frameMetadata st') = size (frameMetadata st) /\
  currentFrameIdx st' = currentFrameIdx st.
Proof.
  cbv zeta. unfold measureGlyphGrid.
  destruct (asciiRef st) as [[text tr]|] eqn:E; cbn; rewrite ?E; auto.
Qed.

(** X14: a response to a single-frame conversion, when it has bytes and
    there are frames to show, is rendered whole: the text becomes the
    decoded response, the frame index the requested frame modulo [count],
    and [size] the response's length, while the multi-frame buffer and
    [count] are left as they are. *)
Theorem single_frame_response_shown {platform : Platform} (loaded : bool)
  (frame : Z) (data : Uint8Array) (st : App) (pre : Pre) :
  asciiRef st = Some pre ->
  count (frameMetadata st) <> 0 ->
  data <> [] ->
  let st' := apply_response loaded (Some frame) data st in
  option_map textContent (asciiRef st') = Some (decode data) /\
  currentFrameIdx st' = Z.rem frame (count (frameMetadata st)) /\
  size (frameMetadata st') = of_Z (length_of data) /\
  asciiBuffer st' = asciiBuffer st /\
  count (frameMetadata st') = count (frameMetadata st).
Proof.
  intros Hr Hc Hd. cbv zeta. unfold apply_response.
  assert (E : (0 <? length_of data) = true)
    by (destruct data;
        [contradiction
        |apply Z.ltb_lt; unfold length_of; cbn [List.length]; lia]).
  rewrite E.
  destruct (measureGlyphGrid_keeps (Some frame) data st)
    as (M1 & M2 & M3 & M4 & M5).
  set (st1 := measureGlyphGrid (Some frame) data st) in *. clearbody st1.
  unfold installSingle.
  set (st2 := set_frameMetadata _ st1).
  assert (Hr2 : asciiRef st2 = Some pre) by (subst st2; cbn; congruence).
  assert (Hc2 : count (frameMetadata st2) = count (frameMetadata st))
    by (subst st2; cbn; congruence).
  assert (Hz2 : size (frameMetadata st2) = of_Z (length_of data))
    by reflexivity.
  assert (Hb2 : asciiBuffer st2 = asciiBuffer st)
    by (subst st2; cbn; congruence).
  clearbody st2.
  destruct (@renderFrame_spec _ loaded frame (Some data) st2 data pre
              eq_refl Hr2 ltac:(congruence)) as (H1 & H2 & _).
  pose proof (renderFrame_frame_buffer loaded frame (Some data) st2) as F.
  set (st3 := renderFrame loaded frame (Some data) st2) in *.
  clearbody st3. unfold frame_buffer in F. injection F as Fb Fm.
  cbn beta in H1, H2.
  rewrite H2, H1, Fm, Fb, Hz2, Hc2, Hb2, sliceFor_whole by reflexivity.
  repeat split.
Qed.

Lemma single_frame_response_shown_witness :
  (asciiRef (after session_start) =
     Some {| textContent := "aaaaaaaaaa";
             transform := TransformCenterScale (19 # 2) |} /\
   count (frameMetadata (after session_start)) <> 0 /\
   bytes 15 "c" <> []) /\
  option_map textContent
    (asciiRef (apply_response (platform := ascii_platform) true (Some 1)
                 (bytes 15 "c") (after session_start))) =
    Some "ccccccccccccccc"%string /\
  asciiBuffer (apply_response (platform := ascii_platform) true (Some 1)
                 (bytes 15 "c") (after session_start)) = Some two_frames.
Proof.
  assert (Hr : asciiRef (after session_start) =
               Some {| textContent := "aaaaaaaaaa";
                       transform := TransformCenterScale (19 # 2) |})
    by by_evaluation.
  assert (Hc : count (frameMetadata (after session_start)) <> 0)
    by by_evaluation.
  assert (Hd : bytes 15 "c" <> []) by discriminate.
  split; [exact (conj Hr (conj Hc Hd))|].
  destruct (@single_frame_response_shown ascii_platform true 1 _ _ _
              Hr Hc Hd) as (H1 & _ & _ & H4 & _).
  split; [rewrite H1; by_evaluation|rewrite H4; by_evaluation].
Defined.

(** X15: a response to a bulk conversion whose length is a whole number
    of frames replaces the buffer and keeps the place: [size] becomes the
    frame length, the frame shown is the one at the current index (modulo
    [count]) cut from the new bytes, and an index below [count] is
    unchanged. *)
Theorem bulk_response_keeps_position {platform : Platform} (loaded : bool)
  (data : Uint8Array) (s : Z) (st : App) (pre : Pre) :
  asciiRef st = Some pre ->
  0 < count (frameMetadata st) ->
  0 < s ->
  length_of data = count (frameMetadata st) * s ->
  0 <= currentFrameIdx st ->
  let st' := apply_response loaded None data st in
  let shown := currentFrameIdx st mod count (frameMetadata st) in
  asciiBuffer st' = Some data /\
  size (frameMetadata st') = of_Z s /\
  count (frameMetadata st') = count (frameMetadata st) /\
  currentFrameIdx st' = shown /\
  option_map textContent (asciiRef st') =
    Some (decode (firstn (Z.to_nat s)
                    (skipn (Z.to_nat (shown * s)) data))) /\
  (currentFrameIdx st < count (frameMetadata st) ->
   currentFrameIdx st' = currentFrameIdx st).
Proof.
  intros Hr Hc Hs Hl Hi. cbv zeta. unfold apply_response.
  assert (E : (0 <? length_of data) = true) by (apply Z.ltb_lt; nia).
  rewrite E.
  destruct (measureGlyphGrid_keeps None data st)
    as (M1 & M2 & M3 & M4 & M5).
  set (st1 := measureGlyphGrid None data st) in *. clearbody st1.
  unfold install.
  set (st2 := set_frameMetadata _ (set_asciiBuffer (Some data) st1)).
  assert (Hz : size (frameMetadata st2) = of_Z s).
  { subst st2. cbn. rewrite M3, Hl.
    rewrite div_Z_exact by (try lia; exists s; lia).
    rewrite (Z.mul_comm (count (frameMetadata st)) s), Z.div_mul by lia.
    reflexivity. }
  assert (Hr2 : asciiRef st2 = Some pre) by (subst st2; cbn; congruence).
  assert (Hc2 : count (frameMetadata st2) = count (frameMetadata st))
    by (subst st2; cbn; congruence).
  assert (Hi2 : currentFrameIdx st2 = currentFrameIdx st)
    by (subst st2; cbn; congruence).
  assert (Hb2 : asciiBuffer st2 = Some data) by reflexivity.
  change (currentFrameIdx (set_asciiBuffer (Some data) st1))
    with (currentFrameIdx st2).
  clearbody st2.
  destruct (@renderFrame_spec _ loaded (currentFrameIdx st2) None st2 data
              pre Hb2 Hr2 ltac:(lia)) as (H1 & H2 & _).
  pose proof (renderFrame_frame_buffer loaded (currentFrameIdx st2) None st2)
    as F.
  set (st3 := renderFrame loaded (currentFrameIdx st2) None st2) in *.
  clearbody st3. unfold frame_buffer in F. injection F as Fb Fm.
  cbn beta in H1, H2.
  rewrite H2, H1, Fm, Fb, Hz, Hc2, Hi2.
  rewrite sliceFor_chunk, Z.rem_mod_nonneg by lia.
  repeat split; try assumption.
  intros Hlt. apply Z.mod_small. lia.
Qed.

Lemma bulk_response_keeps_position_witness :
  (asciiRef (after loading_done) =
     Some {| textContent := EmptyString; transform := TransformUnset |} /\
   0 < count (frameMetadata (after loading_done)) /\
   0 < 10 /\
   length_of two_frames = count (frameMetadata (after loading_done)) * 10 /\
   0 <= currentFrameIdx (after loading_done)) /\
  asciiBuffer (apply_response (platform := ascii_platform) true None
                 two_frames (after loading_done)) = Some two_frames /\
  option_map textContent
    (asciiRef (apply_response (platform := ascii_platform) true None
                 two_frames (after loading_done))) =
    Some "aaaaaaaaaa"%string.
Proof.
  assert (Hr : asciiRef (after loading_done) =
               Some {| textContent := EmptyString;
                       transform := TransformUnset |}) by by_evaluation.
  assert (Hc : 0 < count (frameMetadata (after loading_done)))
    by by_evaluation.
  assert (Hs : 0 < 10) by lia.
  assert (Hl : length_of two_frames =
               count (frameMetadata (after loading_done)) * 10)
    by by_evaluation.
  assert (Hi : 0 <= currentFrameIdx (after loading_done))
    by (vm_compute; discriminate).
  split; [exact (conj Hr (conj Hc (conj Hs (conj Hl Hi))))|].
  destruct (@bulk_response_keeps_position ascii_platform true _ 10 _ _
              Hr Hc Hs Hl Hi) as (H1 & _ & _ & _ & H5 & _).
  split; [exact H1|]. rewrite H5. by_evaluation.
Defined.

(** ** The earlier variant: dropped calls and the frame interval *)

Lemma legacy_conversions_app (xs ys : list Legacy.Invoke) :
  Legacy.conversions (xs ++ ys) =
  Legacy.conversions xs ++ Legacy.conversions ys.
Proof.
  induction xs as [|x xs IH]; [reflexivity|].
  destruct x; simpl; rewrite IH; reflexivity.
Qed.

Lemma legacy_updatePreview_keeps (st : Legacy.App) :
  Legacy.gifLoaded (Legacy.updatePreview st) = Legacy.gifLoaded st /\
  Legacy.isUpdating (Legacy.updatePreview st) = Legacy.isUpdating st /\
  Legacy.convertAwait (Legacy.updatePreview st) = Legacy.convertAwait st /\
  Legacy.params (Legacy.updatePreview st) = Legacy.params st /\
  Legacy.asciiFrames (Legacy.updatePreview st) = Legacy.asciiFrames st /\
  Legacy.currentFrame (Legacy.updatePreview st) = Legacy.currentFrame st /\
  Legacy.conversions (Legacy.invoked (Legacy.updatePreview st)) =
    Legacy.conversions (Legacy.invoked st).
Proof.
  unfold Legacy.updatePreview.
  destruct (negb (Legacy.gifLoaded st)); cbn;
    rewrite ?legacy_conversions_app, ?app_nil_r; auto 10.
Qed.

Lemma legacy_reactive_pipeline_in_flight (st : Legacy.App) :
  Legacy.isUpdating st = true ->
  Legacy.reactive_pipeline st =
  (if Legacy.gifLoaded st then Legacy.updatePreview st else st).
Proof.
  intros Hu. unfold Legacy.reactive_pipeline, Legacy.convert.
  destruct (Legacy.gifLoaded st); [|reflexivity].
  destruct (legacy_updatePreview_keeps st) as (_ & E & _).
  rewrite E, Hu, orb_true_r. reflexivity.
Qed.

Lemma legacy_reactive_pipeline_flight (st : Legacy.App) :
  Legacy.single_flight st ->
  Legacy.single_flight (Legacy.reactive_pipeline st).
Proof.
  intros I. unfold Legacy.reactive_pipeline.
  destruct (Legacy.gifLoaded st) eqn:Hl; [|exact I].
  destruct I as (Hs & Hg).
  destruct (legacy_updatePreview_keeps st) as (E1 & E2 & E3 & _).
  unfold Legacy.convert. rewrite E1, E2, Hl. cbn [negb orb].
  destruct (Legacy.isUpdating st) eqn:Hu.
  - unfold Legacy.single_flight. rewrite E1, E2, E3. split; assumption.
  - destruct Hs as [(Hc & _)|(p & _ & Hc)]; [|congruence].
    unfold Legacy.single_flight; cbn. rewrite E3, Hc, E1. cbn.
    split; [right; eexists; split; reflexivity|auto].
Qed.

Lemma legacy_step_flight (e : Legacy.Event) (st st' : Legacy.App) :
  Legacy.single_flight st -> Legacy.step e st = Some st' ->
  Legacy.single_flight st'.
Proof.
  intros I H. destruct e; cbn in H.
  - destruct (Legacy.loading st); [discriminate|]. injection H as <-.
    exact I.
  - destruct (Legacy.loading st); [|discriminate]. injection H as <-.
    destruct r as [[]|e]; [|exact I]. unfold Legacy.handleOpen_settled.
    destruct (negb (Legacy.gifLoaded st)).
    + apply legacy_reactive_pipeline_flight.
      destruct I as (Hs & Hg). split; [exact Hs|]. cbn. auto.
    + destruct I as (Hs & Hg). split; [exact Hs|]. cbn. auto.
  - injection H as <-. unfold Legacy.onChange.
    destruct (Legacy.params_eqb _ _); [exact I|].
    apply legacy_reactive_pipeline_flight. exact I.
  - destruct (nth_error (Legacy.convertAwait st) k) as [p|] eqn:En;
      [|discriminate].
    injection H as <-. destruct I as (Hs & Hg).
    destruct Hs as [(Hc & _)|(p0 & Hc & Hu)];
      [rewrite Hc in En; destruct k; discriminate|].
    rewrite Hc in En |- *. apply nth_error_singleton in En as (-> & ->).
    unfold Legacy.single_flight, Legacy.convert_settled; cbn.
    destruct r; cbn; (split; [left; split; reflexivity|discriminate]).
  - destruct (nth_error (Legacy.previewAwait st) k); [|discriminate].
    injection H as <-. destruct r; exact I.
  - destruct (1 <? _); [|discriminate]. injection H as <-. exact I.
Qed.

Lemma legacy_reachable_flight (st : Legacy.App) :
  Legacy.reachable st -> Legacy.single_flight st.
Proof.
  induction 1 as [|e st st' _ IH H].
  - split; [left; split; reflexivity|discriminate].
  - exact (legacy_step_flight e IH H).
Qed.

Lemma legacy_after_reachable (es : list Legacy.Event) :
  Legacy.run es Legacy.mounted <> None -> Legacy.reachable (Legacy.after es).
Proof.
  unfold Legacy.after.
  assert (G : forall st st', Legacy.reachable st ->
                Legacy.run es st = Some st' -> Legacy.reachable st').
  { induction es as [|e es IH]; cbn; intros st st' R H.
    - injection H as <-. exact R.
    - destruct (Legacy.step e st) as [st1|] eqn:E; [|discriminate].
      exact (IH st1 st' (Legacy.reachable_step e R E) H). }
  intros H. destruct (Legacy.run es Legacy.mounted) as [st|] eqn:E;
    [|contradiction].
  exact (G _ _ Legacy.reachable_mounted E).
Qed.

(** A burst of slider moves while a conversion is awaited: previews at
    most, no conversion, and the awaited call stays the only one. *)
Lemma legacy_burst (us : list Updater) :
  forall st p,
  Legacy.single_flight st -> Legacy.convertAwait st = [p] ->
  exists st1,
    Legacy.run (map Legacy.ParamChange us) st = Some st1 /\
    Legacy.single_flight st1 /\
    Legacy.convertAwait st1 = [p] /\
    Legacy.asciiFrames st1 = Legacy.asciiFrames st /\
    Legacy.conversions (Legacy.invoked st1) =
      Legacy.conversions (Legacy.invoked st).
Proof.
  induction us as [|u us IH]; intros st p I Hc.
  - exists st. repeat split; auto; apply I.
  - cbn [map Legacy.run Legacy.step].
    assert (Hu : Legacy.isUpdating st = true).
    { destruct I as ([(E & _)|(q & _ & Hu)] & _); [congruence|exact Hu]. }
    assert (I1 : Legacy.single_flight (Legacy.onChange u st))
      by (apply (legacy_step_flight (Legacy.ParamChange u) I); reflexivity).
    assert (K : Legacy.convertAwait (Legacy.onChange u st) = [p] /\
                Legacy.asciiFrames (Legacy.onChange u st) =
                  Legacy.asciiFrames st /\
                Legacy.conversions (Legacy.invoked (Legacy.onChange u st)) =
                  Legacy.conversions (Legacy.invoked st)).
    { unfold Legacy.onChange.
      destruct (Legacy.params_eqb _ _); [auto|].
      rewrite legacy_reactive_pipeline_in_flight by exact Hu.
      cbn [Legacy.gifLoaded Legacy.set_params].
      destruct (Legacy.gifLoaded st); [|cbn; auto].
      match goal with
      | |- context [Legacy.updatePreview ?s] =>
          destruct (legacy_updatePreview_keeps s)
            as (_ & _ & E3 & _ & E5 & _ & E7)
      end.
      rewrite E3, E5, E7. cbn. auto. }
    destruct K as (K1 & K2 & K3).
    destruct (IH (Legacy.onChange u st) p I1 K1)
      as (st1 & Hr & I2 & H1 & H2 & H3).
    exists st1. repeat split; try assumption; try apply I2; congruence.
Qed.

(** X16: the earlier variant keeps at most one conversion in flight by
    dropping calls: slider moves made while a conversion is awaited send no
    conversion, and none is sent when the awaited one resolves either.  The
    frames then on display are those of the parameters the awaited call
    carried; the moves made since are converted only by a later move. *)
Theorem legacy_drops_calls_in_flight (st : Legacy.App) :
  Legacy.reachable st ->
  (List.length (Legacy.convertAwait st) <= 1)%nat /\
  forall p us frames,
    Legacy.convertAwait st = [p] ->
    exists st1 st2,
      Legacy.run (map Legacy.ParamChange us) st = Some st1 /\
      Legacy.conversions (Legacy.invoked st1) =
        Legacy.conversions (Legacy.invoked st) /\
      Legacy.step (Legacy.ConvertSettled 0 (Resolved frames)) st1
        = Some st2 /\
      Legacy.asciiFrames st2 = frames /\
      Legacy.conversions (Legacy.invoked st2) =
        Legacy.conversions (Legacy.invoked st) /\
      Legacy.convertAwait st2 = [] /\
      Legacy.isUpdating st2 = false.
Proof.
  intros R. pose proof (legacy_reachable_flight R) as I. split.
  - destruct I as ([(E & _)|(q & E & _)] & _); rewrite E; cbn; lia.
  - intros p us frames Hc.
    destruct (legacy_burst us I Hc) as (st1 & Hr & I1 & H1 & H2 & H3).
    exists st1. eexists. split; [exact Hr|]. split; [exact H3|].
    cbn [Legacy.step]. rewrite H1. cbn [nth_error].
    split; [reflexivity|]. cbn. repeat split. exact H3.
Qed.

Lemma legacy_drops_calls_in_flight_witness :
  Legacy.reachable (Legacy.after Legacy.converting) /\
  exists st1 st2,
    Legacy.run
      (map Legacy.ParamChange [setBrightness 10; setBrightness 20])
      (Legacy.after Legacy.converting) = Some st1 /\
    Legacy.step (Legacy.ConvertSettled 0 (Resolved ["one"; "two"]%string))
      st1 = Some st2 /\
    Legacy.conversions (Legacy.invoked st2) =
      [{| width := 100; brightness := 0; contrast := 1 |}].
Proof.
  assert (R : Legacy.reachable (Legacy.after Legacy.converting))
    by (apply legacy_after_reachable; by_evaluation).
  assert (Hc : Legacy.convertAwait (Legacy.after Legacy.converting) =
               [{| width := 100; brightness := 0; contrast := 1 |}])
    by by_evaluation.
  split; [exact R|].
  destruct (proj2 (legacy_drops_calls_in_flight R) _
              [setBrightness 10; setBrightness 20]
              ["one"; "two"]%string Hc)
    as (st1 & st2 & H1 & _ & H3 & _ & H5 & _).
  exists st1, st2. split; [exact H1|]. split; [exact H3|].
  rewrite H5. by_evaluation.
Defined.

Lemma legacy_tick_in_range (st : Legacy.App) :
  0 <= Legacy.currentFrame st ->
  1 < Z.of_nat (List.length (Legacy.asciiFrames st)) ->
  Legacy.currentFrame (Legacy.tick st) =
    (Legacy.currentFrame st + 1)
      mod Z.of_nat (List.length (Legacy.asciiFrames st)) /\
  0 <= Legacy.currentFrame (Legacy.tick st)
    < Z.of_nat (List.length (Legacy.asciiFrames st)).
Proof.
  intros Hc Hl. unfold Legacy.tick. cbn.
  rewrite Z.rem_mod_nonneg by lia.
  split; [reflexivity|apply Z.mod_pos_bound; lia].
Qed.

Lemma legacy_step_currentFrame (e : Legacy.Event) (st st' : Legacy.App) :
  0 <= Legacy.currentFrame st -> Legacy.step e st = Some st' ->
  0 <= Legacy.currentFrame st'.
Proof.
  intros I H. destruct e; cbn in H.
  - destruct (Legacy.loading st); [discriminate|]. injection H as <-.
    exact I.
  - destruct (Legacy.loading st); [|discriminate]. injection H as <-.
    destruct r as [[]|e]; [|exact I].
    unfold Legacy.handleOpen_settled, Legacy.reactive_pipeline,
      Legacy.convert, Legacy.updatePreview.
    cbn. split_matches; exact I.
  - injection H as <-.
    unfold Legacy.onChange, Legacy.reactive_pipeline, Legacy.convert,
      Legacy.updatePreview.
    cbn. split_matches; exact I.
  - destruct (nth_error (Legacy.convertAwait st) k); [|discriminate].
    injection H as <-. destruct r; exact I.
  - destruct (nth_error (Legacy.previewAwait st) k); [|discriminate].
    injection H as <-. destruct r; exact I.
  - destruct (1 <? Z.of_nat (List.length (Legacy.asciiFrames st))) eqn:E;
      [|discriminate].
    injection H as <-. apply Z.ltb_lt in E.
    apply (legacy_tick_in_range st I E).
Qed.

(** X17: in the earlier variant, whenever the interval fires (there is
    more than one frame) the frame index lands inside the frames, also when
    it was past the end because a conversion had just returned fewer
    frames, and the text shown is one of the frames.  From an index inside
    the frames, [n] firings move it to [(index + n) mod length]. *)
Theorem legacy_interval_stays_in_range (st : Legacy.App) (n : nat) :
  Legacy.reachable st ->
  1 < Z.of_nat (List.length (Legacy.asciiFrames st)) ->
  (exists st',
     Legacy.step Legacy.IntervalFired st = Some st' /\
     0 <= Legacy.currentFrame st'
       < Z.of_nat (List.length (Legacy.asciiFrames st')) /\
     In (Legacy.rendered st') (Legacy.asciiFrames st')) /\
  (Legacy.currentFrame st < Z.of_nat (List.length (Legacy.asciiFrames st)) ->
   exists st',
     Legacy.run (repeat Legacy.IntervalFired n) st = Some st' /\
     Legacy.asciiFrames st' = Legacy.asciiFrames st /\
     Legacy.currentFrame st' =
       (Legacy.currentFrame st + Z.of_nat n)
         mod Z.of_nat (List.length (Legacy.asciiFrames st))).
Proof.
  intros R Hl.
  assert (Hc : 0 <= Legacy.currentFrame st).
  { clear Hl. induction R as [|e st st' _ IH H]; [cbn; lia|].
    exact (@legacy_step_currentFrame e st st' IH H). }
  clear R. split.
  - cbn [Legacy.step]. rewrite (proj2 (Z.ltb_lt _ _) Hl).
    eexists. split; [reflexivity|].
    destruct (legacy_tick_in_range st Hc Hl) as (_ & Hr).
    change (Legacy.asciiFrames (Legacy.tick st))
      with (Legacy.asciiFrames st).
    split; [exact Hr|]. unfold Legacy.rendered.
    change (Legacy.asciiFrames (Legacy.tick st))
      with (Legacy.asciiFrames st).
    destruct (Legacy.asciiFrames st) as [|f fs] eqn:Ef; [cbn in Hl; lia|].
    rewrite <- Ef in *.
    destruct (nth_error (Legacy.asciiFrames st)
                (Z.to_nat (Legacy.currentFrame (Legacy.tick st))))
      as [frame|] eqn:En.
    + exact (nth_error_In _ _ En).
    + apply nth_error_None in En. lia.
  - revert st Hl Hc. induction n as [|n IH]; intros st Hl Hc Hlt.
    + exists st. cbn. rewrite Z.add_0_r, Z.mod_small by lia. auto.
    + cbn [repeat Legacy.run Legacy.step].
      rewrite (proj2 (Z.ltb_lt _ _) Hl).
      destruct (legacy_tick_in_range st Hc Hl) as (Ht & Hr).
      destruct (IH (Legacy.tick st) Hl ltac:(lia) ltac:(apply Hr))
        as (st' & H1 & H2 & H3).
      exists st'. split; [exact H1|]. split; [exact H2|].
      rewrite H3, Ht.
      change (Legacy.asciiFrames (Legacy.tick st))
        with (Legacy.asciiFrames st).
      rewrite Zplus_mod_idemp_l. f_equal. lia.
Qed.

Lemma legacy_interval_stays_in_range_witness :
  (Legacy.reachable (Legacy.after Legacy.three_frames) /\
   1 < Z.of_nat
         (List.length (Legacy.asciiFrames
                         (Legacy.after Legacy.three_frames))) /\
   Legacy.currentFrame (Legacy.after Legacy.three_frames)
     < Z.of_nat
         (List.length (Legacy.asciiFrames
                         (Legacy.after Legacy.three_frames)))) /\
  exists st',
    Legacy.run (repeat Legacy.IntervalFired 4)
      (Legacy.after Legacy.three_frames) = Some st' /\
    Legacy.currentFrame st' = 1.
Proof.
  assert (R : Legacy.reachable (Legacy.after Legacy.three_frames))
    by (apply legacy_after_reachable; by_evaluation).
  assert (Hl : 1 < Z.of_nat
                     (List.length (Legacy.asciiFrames
                                     (Legacy.after Legacy.three_frames))))
    by by_evaluation.
  assert (Hc : Legacy.currentFrame (Legacy.after Legacy.three_frames)
               < Z.of_nat
                   (List.length (Legacy.asciiFrames
                                   (Legacy.after Legacy.three_frames))))
    by by_evaluation.
  split; [exact (conj R (conj Hl Hc))|].
  destruct (proj2 (legacy_interval_stays_in_range 4 R Hl) Hc)
    as (st' & H1 & _ & H3).
  exists st'. split; [exact H1|]. rewrite H3. by_evaluation.
Defined.

(** ** Interactive mode ends *)

Section Interactive.

Context {platform : Platform}.

Lemma interactive_iff_armed_control (a b : App) :
  control a = control b -> interactive_iff_armed a -> interactive_iff_armed b.
Proof.
  intros H I. control_eqs H. unfold interactive_iff_armed in *.
  repeat match goal with
         | E : ?p a = ?p b |- _ => rewrite <- E; clear E
         end.
  exact I.
Qed.

Lemma convert_interactive (loaded : bool) (o : option Z) (st : App) :
  isInteractive (convert loaded o st) = isInteractive st /\
  timeouts (convert loaded o st) = timeouts st.
Proof. unfold convert, convert_loop. split_matches; auto. Qed.

Lemma step_interactive (e : Event) (st st' : App) :
  coordinator_inv st -> interactive_iff_armed st ->
  step e st = Some st' -> interactive_iff_armed st'.
Proof.
  intros (_ & _ & _ & _ & Ht & _) I H. destruct e; cbn in H.
  - destruct (loading st); [discriminate|]. injection H as <-. exact I.
  - destruct (loading st); [|discriminate]. injection H as <-.
    destruct r as [n|e]; [|exact I]. unfold handleOpen_settled.
    change (gifLoaded (set_frameMetadata (set_count n (frameMetadata st)) st))
      with (gifLoaded st).
    destruct (negb (gifLoaded st)); [|exact I].
    unfold effects_on_gifLoaded.
    match goal with
    | |- context [convert true None ?s] =>
        destruct (convert_interactive true None s) as (E1 & E2);
        set (st1 := convert true None s) in *
    end.
    clearbody st1. cbn in E1, E2.
    destruct (count (frameMetadata st1) <=? 1);
      unfold interactive_iff_armed in *; cbn; rewrite E1, E2; exact I.
  - injection H as <-. unfold handleParamChange.
    match goal with
    | |- context [convert ?l ?o ?s] =>
        destruct (convert_interactive l o s) as (E1 & _);
        set (st1 := convert l o s) in *
    end.
    clearbody st1. cbn in E1.
    assert (E : isInteractive (cancel_debounce st1) = true).
    { unfold cancel_debounce, clearTimeout.
      destruct (debounceTimer st1) as [h|]; [destruct (h =? 0)|];
        exact E1. }
    unfold interactive_iff_armed, sync_paramsRef, setTimeout. cbn.
    rewrite E. split; [intros _|reflexivity].
    intros N. apply app_eq_nil in N. destruct N as (_ & N). discriminate.
  - destruct (find _ (timeouts st)) as [t|] eqn:Ef; [|discriminate].
    injection H as <-. apply find_some in Ef as (Hin & Eh).
    unfold debounce_callback.
    match goal with
    | |- context [convert ?l ?o ?s] =>
        destruct (convert_interactive l o s) as (E1 & E2)
    end.
    unfold interactive_iff_armed. rewrite E1, E2. cbn.
    destruct Ht as [Ht|(t0 & Ht & _)]; [rewrite Ht in Hin; destruct Hin|].
    rewrite Ht in Hin |- *. destruct Hin as [->|[]].
    cbn. rewrite Eh. cbn. split; [discriminate|intros N; contradiction].
  - destruct (nth_error (convertAwait st) k) as [a|]; [|discriminate].
    injection H as <-. destruct r as [response|e]; [|exact I].
    unfold convert_resolved.
    match goal with
    | |- context [apply_response true ?o ?d ?s] =>
        pose proof (interactive_iff_armed_control
                      (eq_sym (apply_response_control true o d s))) as G;
        set (st1 := apply_response true o d s) in *
    end.
    clearbody st1. specialize (G I).
    destruct (pendingUpdate st1); exact G.
  - destruct (nth_error (previewAwait st) k); [|discriminate].
    injection H as <-. destruct r; exact I.
  - destruct (animationFrameId st); [|discriminate]. injection H as <-.
    unfold animate.
    match goal with
    | |- context [if ?c then ?x else st] =>
        assert (G : interactive_iff_armed (if c then x else st));
        [|set (st1 := if c then x else st) in *]
    end.
    { destruct (_ && _); [|exact I].
      eapply interactive_iff_armed_control;
        [symmetry; apply renderFrame_control|exact I]. }
    clearbody st1. exact G.
  - injection H as <-.
    eapply interactive_iff_armed_control;
      [symmetry; apply calculateAndApplyScale_control|exact I].
Qed.

End Interactive.

(** X18: in every reachable state the component is in interactive mode
    exactly when a debounce timeout is armed: autoplay is never suspended
    without the timeout that will resume it, and no timeout outlives the
    mode. *)
Theorem interactive_exactly_while_armed {platform : Platform} (st : App) :
  reachable st -> interactive_iff_armed st.
Proof.
  induction 1 as [w h|e st st' R IH H].
  - unfold interactive_iff_armed; cbn. split; [discriminate|].
    intros N. contradiction.
  - exact (@step_interactive _ e st st' (reachable_inv R) IH H).
Qed.

Lemma interactive_exactly_while_armed_witness :
  reachable (platform := ascii_platform) (after first_edit) /\
  isInteractive (after first_edit) = true /\
  timeouts (after first_edit) <> [].
Proof.
  assert (R : reachable (platform := ascii_platform) (after first_edit))
    by (apply after_reachable; by_evaluation).
  assert (Hi : isInteractive (after first_edit) = true) by by_evaluation.
  split; [exact R|]. split; [exact Hi|].
  exact (proj1 (@interactive_exactly_while_armed ascii_platform _ R) Hi).
Defined.
